(** * Studio Agent: the realtime voice session

    A shallow embedding of [src/components/LiveAgent.tsx] (the capture tap,
    the playback scheduler, the inbound dispatch and the teardown) together
    with a model of the Signal Framer of [utils/audioUtils].

    JavaScript numbers (clock readings, durations, the energy sample) are
    modelled as real numbers: rounding of doubles is not part of the model.
    The component's mutable refs and React state are one record that is
    threaded through every callback; a state update takes effect at once;
    calls made on browser or SDK objects are appended to a trace.  The
    constructors ([new AudioContext], [new GoogleGenAI]) and
    [ai.live.connect] are taken not to raise. *)

From Stdlib Require Import Reals Lra Lia List String Ascii ZArith NArith Bool.
From Stdlib Require Import QArith Qround Qminmax Qabs.
Import ListNotations.

(** * The Signal Framer *)

Module SignalFramer.

Local Open Scope Q_scope.

(** One element of the capture block.  Every finite 32-bit float is a
    rational number; [NaN] is the malformed sample. *)
Inductive Sample :=
| NaN
| Num (q : Q).

(** The Encoded Payload handed to the transport. *)
Record EncodedPayload := { mimeType : string; data : string }.

(** Modelled from the spec: [createPcmBlob] of [utils/audioUtils] is
    imported by the component but its code is not available.  The spec has
    it clamp each sample to [-1, 1] with a malformed sample taken as 0,
    scale to a 16-bit signed integer, pack little-endian, base64-encode and
    tag the result [audio/pcm;rate=16000].  The spec gives neither the scale
    factor nor the rounding: the model scales by 32767, which maps the
    clamped range onto the 16-bit range, and drops the fraction as a store
    into an [Int16Array] does. *)
Definition clamp (x : Sample) : Q :=
  match x with
  | NaN => 0
  | Num q => Qmax (-1) (Qmin 1 q)
  end.

Definition scale : Z := 32767.

(** Rounding toward zero. *)
Definition truncate (q : Q) : Z := Z.quot (Qnum q) (Z.pos (Qden q)).

Definition toInt16 (x : Sample) : Z := truncate (clamp x * inject_Z scale).

Definition byte_of_Z (z : Z) : Byte.byte :=
  match Byte.of_N (Z.to_N z) with
  | Some b => b
  | None => Byte.x00
  end.

Definition Z_of_byte (b : Byte.byte) : Z := Z.of_N (Byte.to_N b).

(** Two's complement, low byte first. *)
Definition int16_bytes (k : Z) : list Byte.byte :=
  let u := (k mod 65536)%Z in
  [byte_of_Z (u mod 256); byte_of_Z (u / 256)].

Definition int16_of_bytes (lo hi : Byte.byte) : Z :=
  let u := (Z_of_byte lo + 256 * Z_of_byte hi)%Z in
  if (u <? 32768)%Z then u else (u - 65536)%Z.

(** *** Base64 (RFC 4648, with padding) *)

Definition alphabet : string :=
  "ABCDEFGHIJKLMNOPQRSTUVWXYZabcdefghijklmnopqrstuvwxyz0123456789+/".

Definition pad : ascii := "="%char.

Definition char_of_sextet (n : Z) : ascii :=
  match String.get (Z.to_nat n) alphabet with
  | Some c => c
  | None => pad
  end.

Fixpoint index_of (c : ascii) (s : string) (i : Z) : option Z :=
  match s with
  | EmptyString => None
  | String d s' => if Ascii.eqb c d then Some i else index_of c s' (i + 1)%Z
  end.

Definition sextet_of_char (c : ascii) : option Z := index_of c alphabet 0%Z.

Fixpoint base64_encode (bs : list Byte.byte) : string :=
  match bs with
  | [] => EmptyString
  | [a] =>
      let n := (Z_of_byte a * 65536)%Z in
      String (char_of_sextet (n / 262144))
        (String (char_of_sextet ((n / 4096) mod 64))
           (String pad (String pad EmptyString)))
  | [a; b] =>
      let n := (Z_of_byte a * 65536 + Z_of_byte b * 256)%Z in
      String (char_of_sextet (n / 262144))
        (String (char_of_sextet ((n / 4096) mod 64))
           (String (char_of_sextet ((n / 64) mod 64))
              (String pad EmptyString)))
  | a :: b :: c :: rest =>
      let n := (Z_of_byte a * 65536 + Z_of_byte b * 256 + Z_of_byte c)%Z in
      String (char_of_sextet (n / 262144))
        (String (char_of_sextet ((n / 4096) mod 64))
           (String (char_of_sextet ((n / 64) mod 64))
              (String (char_of_sextet (n mod 64))
                 (base64_encode rest))))
  end.

Definition is_empty (s : string) : bool :=
  match s with EmptyString => true | String _ _ => false end.

Fixpoint base64_decode (s : string) : option (list Byte.byte) :=
  match s with
  | EmptyString => Some []
  | String c1 (String c2 (String c3 (String c4 rest))) =>
      match sextet_of_char c1, sextet_of_char c2 with
      | Some s1, Some s2 =>
          if Ascii.eqb c3 pad then
            if Ascii.eqb c4 pad && is_empty rest
            then Some [byte_of_Z (s1 * 4 + s2 / 16)]
            else None
          else
            match sextet_of_char c3 with
            | Some s3 =>
                let b1 := byte_of_Z (s1 * 4 + s2 / 16) in
                let b2 := byte_of_Z ((s2 mod 16) * 16 + s3 / 4) in
                if Ascii.eqb c4 pad then
                  if is_empty rest then Some [b1; b2] else None
                else
                  match sextet_of_char c4 with
                  | Some s4 =>
                      let b3 := byte_of_Z ((s3 mod 4) * 64 + s4) in
                      match base64_decode rest with
                      | Some bs => Some (b1 :: b2 :: b3 :: bs)
                      | None => None
                      end
                  | None => None
                  end
            | None => None
            end
      | _, _ => None
      end
  | _ => None
  end.

(** *** The framer and its inverse *)

Definition pack (ks : list Z) : list Byte.byte := flat_map int16_bytes ks.

Fixpoint unpack (bs : list Byte.byte) : option (list Z) :=
  match bs with
  | [] => Some []
  | lo :: hi :: rest =>
      match unpack rest with
      | Some ks => Some (int16_of_bytes lo hi :: ks)
      | None => None
      end
  | _ => None
  end.

Definition frame (samples : list Sample) : EncodedPayload :=
  {| mimeType := "audio/pcm;rate=16000";
     data := base64_encode (pack (map toInt16 samples)) |}.

(** Reading a payload back as 16-bit samples. *)
Definition unframe (p : EncodedPayload) : option (list Z) :=
  match base64_decode (data p) with
  | Some bs => unpack bs
  | None => None
  end.

End SignalFramer.

(** * The voice session component *)

Module LiveAgent.

Local Open Scope R_scope.

(** ** Platform objects *)

(** [new AudioContext({ sampleRate })]; [ctxId] is the object's identity. *)
Record AudioContext := { ctxId : nat; sampleRate : Z }.

(** The stream [navigator.mediaDevices.getUserMedia] resolves with. *)
Inductive MediaStream := Microphone (device : nat).

(** [inputContext.createMediaStreamSource(stream)]. *)
Inductive MediaStreamAudioSourceNode := MediaStreamSource (stream : MediaStream).

(** [inputContext.createScriptProcessor(bufferSize, 1, 1)]: a node of the
    context it is created on; [tapId] is the object's identity. *)
Inductive ScriptProcessorNode :=
  ScriptProcessor (context : AudioContext) (tapId : nat) (bufferSize : nat).

(** A decoded buffer.  Web Audio defines [duration] as the number of sample
    frames divided by the sample rate. *)
Record AudioBuffer := { frames : N; rate : positive }.

Definition duration (b : AudioBuffer) : R :=
  IZR (Z.of_N (frames b)) / IZR (Z.pos (rate b)).

(** [ctx.createBufferSource()] with its [buffer] set; [nodeId] is the
    object's identity (the active set is a JavaScript [Set] of objects). *)
Record AudioBufferSourceNode := { nodeId : nat; buffer : AudioBuffer }.

(** [{ data, mimeType }], both for [inlineData] and for outbound media. *)
Record Blob := { mimeType : option string; data : option string }.

(** ** Inbound messages: the optional chain of [LiveServerMessage] *)

Record Part := { inlineData : option Blob }.
Record Content := { parts : option (list Part) }.
Record ServerContent := { modelTurn : option Content; interrupted : option bool }.
Record LiveServerMessage := { serverContent : option ServerContent }.

Definition opt_bind {A B} (o : option A) (f : A -> option B) : option B :=
  match o with Some a => f a | None => None end.

(** [message.serverContent?.modelTurn?.parts?.[0]?.inlineData?.data] *)
Definition base64Audio (message : LiveServerMessage) : option string :=
  opt_bind (serverContent message) (fun sc =>
  opt_bind (modelTurn sc) (fun mt =>
  opt_bind (parts mt) (fun ps =>
  opt_bind (hd_error ps) (fun p =>
  opt_bind (inlineData p) (fun blob => data blob))))).

(** Truthiness of a string: the empty string is falsy. *)
Definition truthy (s : string) : bool :=
  match s with EmptyString => false | String _ _ => true end.

(** [message.serverContent?.interrupted] used as a condition. *)
Definition isInterrupted (message : LiveServerMessage) : bool :=
  match serverContent message with
  | Some sc => match interrupted sc with Some b => b | None => false end
  | None => false
  end.

(** ** The helpers imported from [../utils/audioUtils]

    Their code is not part of the component; the component is verified for
    every implementation.  [None] stands for a thrown exception or a
    rejected promise. *)
Class AudioUtils := {
  createPcmBlob : list R -> Blob;
  base64ToUint8Array : string -> option (list Byte.byte);
  decodeAudioData : list Byte.byte -> AudioContext -> option AudioBuffer
}.

(** ** State *)

(** The promise returned by [ai.live.connect], with the [then] reactions
    registered on it while it is unsettled. *)
Inductive PromiseState :=
| Pending (reactions : list Blob)
| Fulfilled
| Rejected.

(** One call of [ai.live.connect]: the stream its [onopen] closure captured
    and the promise it returned. *)
Record Connection := { micStream : MediaStream; sessionPromise : PromiseState }.

(** An [onmessage] call parked at [await decodeAudioData(audioBytes, ctx)],
    with the locals its continuation reads. *)
Record Suspended := {
  sCtx : AudioContext;
  sBytes : list Byte.byte;
  sMessage : LiveServerMessage
}.

(** Calls made on browser and SDK objects, in program order. *)
Inductive Effect :=
| ProcessorDisconnect (p : ScriptProcessorNode)
| SourceDisconnect (n : MediaStreamAudioSourceNode)
| TrackStop (s : MediaStream)
| ContextClose (c : AudioContext)
| SourceStart (src : AudioBufferSourceNode) (when : R)
| SourceStop (src : AudioBufferSourceNode)
| SendRealtimeInput (session : nat) (media : Blob).

Record State := {
  (* useState *)
  connected : bool;
  error : option string;
  volume : R;
  (* useRef *)
  audioContextRef : option AudioContext;
  inputContextRef : option AudioContext;
  streamRef : option MediaStream;
  processorRef : option ScriptProcessorNode;
  sourceRef : option MediaStreamAudioSourceNode;
  nextStartTimeRef : R;
  activeSourcesRef : list AudioBufferSourceNode;
  sessionPromiseRef : option nat;
  (* the runtime around the component *)
  connections : list Connection;
  decoding : list Suspended;
  acquiring : nat;
  taps : list ScriptProcessorNode;
  created : nat;
  trace : list Effect
}.

(** The component as mounted: [useState] and [useRef] initial values. *)
Definition initial : State := {|
  connected := false; error := None; volume := 0;
  audioContextRef := None; inputContextRef := None; streamRef := None;
  processorRef := None; sourceRef := None;
  nextStartTimeRef := 0; activeSourcesRef := [];
  sessionPromiseRef := None;
  connections := []; decoding := []; acquiring := 0%nat; taps := [];
  created := 0%nat; trace := []
|}.

(** *** Field updates *)

Definition set_connected (b' : bool) (s : State) : State :=
  let 'Build_State x_connected x_error x_volume x_audioContextRef
        x_inputContextRef x_streamRef x_processorRef x_sourceRef
        x_nextStartTimeRef x_activeSourcesRef x_sessionPromiseRef
        x_connections x_decoding x_acquiring x_taps x_created x_trace := s in
    {| connected := b'; error := x_error; volume := x_volume;
       audioContextRef := x_audioContextRef;
       inputContextRef := x_inputContextRef; streamRef := x_streamRef;
       processorRef := x_processorRef; sourceRef := x_sourceRef;
       nextStartTimeRef := x_nextStartTimeRef;
       activeSourcesRef := x_activeSourcesRef;
       sessionPromiseRef := x_sessionPromiseRef;
       connections := x_connections; decoding := x_decoding;
       acquiring := x_acquiring; taps := x_taps; created := x_created;
       trace := x_trace |}.

Definition set_error (e' : option string) (s : State) : State :=
  let 'Build_State x_connected x_error x_volume x_audioContextRef
        x_inputContextRef x_streamRef x_processorRef x_sourceRef
        x_nextStartTimeRef x_activeSourcesRef x_sessionPromiseRef
        x_connections x_decoding x_acquiring x_taps x_created x_trace := s in
    {| connected := x_connected; error := e'; volume := x_volume;
       audioContextRef := x_audioContextRef;
       inputContextRef := x_inputContextRef; streamRef := x_streamRef;
       processorRef := x_processorRef; sourceRef := x_sourceRef;
       nextStartTimeRef := x_nextStartTimeRef;
       activeSourcesRef := x_activeSourcesRef;
       sessionPromiseRef := x_sessionPromiseRef;
       connections := x_connections; decoding := x_decoding;
       acquiring := x_acquiring; taps := x_taps; created := x_created;
       trace := x_trace |}.

Definition set_volume (v' : R) (s : State) : State :=
  let 'Build_State x_connected x_error x_volume x_audioContextRef
        x_inputContextRef x_streamRef x_processorRef x_sourceRef
        x_nextStartTimeRef x_activeSourcesRef x_sessionPromiseRef
        x_connections x_decoding x_acquiring x_taps x_created x_trace := s in
    {| connected := x_connected; error := x_error; volume := v';
       audioContextRef := x_audioContextRef;
       inputContextRef := x_inputContextRef; streamRef := x_streamRef;
       processorRef := x_processorRef; sourceRef := x_sourceRef;
       nextStartTimeRef := x_nextStartTimeRef;
       activeSourcesRef := x_activeSourcesRef;
       sessionPromiseRef := x_sessionPromiseRef;
       connections := x_connections; decoding := x_decoding;
       acquiring := x_acquiring; taps := x_taps; created := x_created;
       trace := x_trace |}.

Definition set_audioContextRef (c' : option AudioContext) (s : State) : State :=
  let 'Build_State x_connected x_error x_volume x_audioContextRef
        x_inputContextRef x_streamRef x_processorRef x_sourceRef
        x_nextStartTimeRef x_activeSourcesRef x_sessionPromiseRef
        x_connections x_decoding x_acquiring x_taps x_created x_trace := s in
    {| connected := x_connected; error := x_error; volume := x_volume;
       audioContextRef := c'; inputContextRef := x_inputContextRef;
       streamRef := x_streamRef; processorRef := x_processorRef;
       sourceRef := x_sourceRef; nextStartTimeRef := x_nextStartTimeRef;
       activeSourcesRef := x_activeSourcesRef;
       sessionPromiseRef := x_sessionPromiseRef;
       connections := x_connections; decoding := x_decoding;
       acquiring := x_acquiring; taps := x_taps; created := x_created;
       trace := x_trace |}.

Definition set_inputContextRef (c' : option AudioContext) (s : State) : State :=
  let 'Build_State x_connected x_error x_volume x_audioContextRef
        x_inputContextRef x_streamRef x_processorRef x_sourceRef
        x_nextStartTimeRef x_activeSourcesRef x_sessionPromiseRef
        x_connections x_decoding x_acquiring x_taps x_created x_trace := s in
    {| connected := x_connected; error := x_error; volume := x_volume;
       audioContextRef := x_audioContextRef; inputContextRef := c';
       streamRef := x_streamRef; processorRef := x_processorRef;
       sourceRef := x_sourceRef; nextStartTimeRef := x_nextStartTimeRef;
       activeSourcesRef := x_activeSourcesRef;
       sessionPromiseRef := x_sessionPromiseRef;
       connections := x_connections; decoding := x_decoding;
       acquiring := x_acquiring; taps := x_taps; created := x_created;
       trace := x_trace |}.

Definition set_streamRef (m' : option MediaStream) (s : State) : State :=
  let 'Build_State x_connected x_error x_volume x_audioContextRef
        x_inputContextRef x_streamRef x_processorRef x_sourceRef
        x_nextStartTimeRef x_activeSourcesRef x_sessionPromiseRef
        x_connections x_decoding x_acquiring x_taps x_created x_trace := s in
    {| connected := x_connected; error := x_error; volume := x_volume;
       audioContextRef := x_audioContextRef;
       inputContextRef := x_inputContextRef; streamRef := m';
       processorRef := x_processorRef; sourceRef := x_sourceRef;
       nextStartTimeRef := x_nextStartTimeRef;
       activeSourcesRef := x_activeSourcesRef;
       sessionPromiseRef := x_sessionPromiseRef;
       connections := x_connections; decoding := x_decoding;
       acquiring := x_acquiring; taps := x_taps; created := x_created;
       trace := x_trace |}.

Definition set_processorRef (p' : option ScriptProcessorNode) (s : State) : State :=
  let 'Build_State x_connected x_error x_volume x_audioContextRef
        x_inputContextRef x_streamRef x_processorRef x_sourceRef
        x_nextStartTimeRef x_activeSourcesRef x_sessionPromiseRef
        x_connections x_decoding x_acquiring x_taps x_created x_trace := s in
    {| connected := x_connected; error := x_error; volume := x_volume;
       audioContextRef := x_audioContextRef;
       inputContextRef := x_inputContextRef; streamRef := x_streamRef;
       processorRef := p'; sourceRef := x_sourceRef;
       nextStartTimeRef := x_nextStartTimeRef;
       activeSourcesRef := x_activeSourcesRef;
       sessionPromiseRef := x_sessionPromiseRef;
       connections := x_connections; decoding := x_decoding;
       acquiring := x_acquiring; taps := x_taps; created := x_created;
       trace := x_trace |}.

Definition set_sourceRef (n' : option MediaStreamAudioSourceNode) (s : State) : State :=
  let 'Build_State x_connected x_error x_volume x_audioContextRef
        x_inputContextRef x_streamRef x_processorRef x_sourceRef
        x_nextStartTimeRef x_activeSourcesRef x_sessionPromiseRef
        x_connections x_decoding x_acquiring x_taps x_created x_trace := s in
    {| connected := x_connected; error := x_error; volume := x_volume;
       audioContextRef := x_audioContextRef;
       inputContextRef := x_inputContextRef; streamRef := x_streamRef;
       processorRef := x_processorRef; sourceRef := n';
       nextStartTimeRef := x_nextStartTimeRef;
       activeSourcesRef := x_activeSourcesRef;
       sessionPromiseRef := x_sessionPromiseRef;
       connections := x_connections; decoding := x_decoding;
       acquiring := x_acquiring; taps := x_taps; created := x_created;
       trace := x_trace |}.

Definition set_nextStartTimeRef (t' : R) (s : State) : State :=
  let 'Build_State x_connected x_error x_volume x_audioContextRef
        x_inputContextRef x_streamRef x_processorRef x_sourceRef
        x_nextStartTimeRef x_activeSourcesRef x_sessionPromiseRef
        x_connections x_decoding x_acquiring x_taps x_created x_trace := s in
    {| connected := x_connected; error := x_error; volume := x_volume;
       audioContextRef := x_audioContextRef;
       inputContextRef := x_inputContextRef; streamRef := x_streamRef;
       processorRef := x_processorRef; sourceRef := x_sourceRef;
       nextStartTimeRef := t'; activeSourcesRef := x_activeSourcesRef;
       sessionPromiseRef := x_sessionPromiseRef;
       connections := x_connections; decoding := x_decoding;
       acquiring := x_acquiring; taps := x_taps; created := x_created;
       trace := x_trace |}.

Definition set_activeSourcesRef (l' : list AudioBufferSourceNode) (s : State) : State :=
  let 'Build_State x_connected x_error x_volume x_audioContextRef
        x_inputContextRef x_streamRef x_processorRef x_sourceRef
        x_nextStartTimeRef x_activeSourcesRef x_sessionPromiseRef
        x_connections x_decoding x_acquiring x_taps x_created x_trace := s in
    {| connected := x_connected; error := x_error; volume := x_volume;
       audioContextRef := x_audioContextRef;
       inputContextRef := x_inputContextRef; streamRef := x_streamRef;
       processorRef := x_processorRef; sourceRef := x_sourceRef;
       nextStartTimeRef := x_nextStartTimeRef; activeSourcesRef := l';
       sessionPromiseRef := x_sessionPromiseRef;
       connections := x_connections; decoding := x_decoding;
       acquiring := x_acquiring; taps := x_taps; created := x_created;
       trace := x_trace |}.

Definition set_sessionPromiseRef (k' : option nat) (s : State) : State :=
  let 'Build_State x_connected x_error x_volume x_audioContextRef
        x_inputContextRef x_streamRef x_processorRef x_sourceRef
        x_nextStartTimeRef x_activeSourcesRef x_sessionPromiseRef
        x_connections x_decoding x_acquiring x_taps x_created x_trace := s in
    {| connected := x_connected; error := x_error; volume := x_volume;
       audioContextRef := x_audioContextRef;
       inputContextRef := x_inputContextRef; streamRef := x_streamRef;
       processorRef := x_processorRef; sourceRef := x_sourceRef;
       nextStartTimeRef := x_nextStartTimeRef;
       activeSourcesRef := x_activeSourcesRef; sessionPromiseRef := k';
       connections := x_connections; decoding := x_decoding;
       acquiring := x_acquiring; taps := x_taps; created := x_created;
       trace := x_trace |}.

Definition set_connections (l' : list Connection) (s : State) : State :=
  let 'Build_State x_connected x_error x_volume x_audioContextRef
        x_inputContextRef x_streamRef x_processorRef x_sourceRef
        x_nextStartTimeRef x_activeSourcesRef x_sessionPromiseRef
        x_connections x_decoding x_acquiring x_taps x_created x_trace := s in
    {| connected := x_connected; error := x_error; volume := x_volume;
       audioContextRef := x_audioContextRef;
       inputContextRef := x_inputContextRef; streamRef := x_streamRef;
       processorRef := x_processorRef; sourceRef := x_sourceRef;
       nextStartTimeRef := x_nextStartTimeRef;
       activeSourcesRef := x_activeSourcesRef;
       sessionPromiseRef := x_sessionPromiseRef; connections := l';
       decoding := x_decoding; acquiring := x_acquiring; taps := x_taps;
       created := x_created; trace := x_trace |}.

Definition set_decoding (l' : list Suspended) (s : State) : State :=
  let 'Build_State x_connected x_error x_volume x_audioContextRef
        x_inputContextRef x_streamRef x_processorRef x_sourceRef
        x_nextStartTimeRef x_activeSourcesRef x_sessionPromiseRef
        x_connections x_decoding x_acquiring x_taps x_created x_trace := s in
    {| connected := x_connected; error := x_error; volume := x_volume;
       audioContextRef := x_audioContextRef;
       inputContextRef := x_inputContextRef; streamRef := x_streamRef;
       processorRef := x_processorRef; sourceRef := x_sourceRef;
       nextStartTimeRef := x_nextStartTimeRef;
       activeSourcesRef := x_activeSourcesRef;
       sessionPromiseRef := x_sessionPromiseRef;
       connections := x_connections; decoding := l';
       acquiring := x_acquiring; taps := x_taps; created := x_created;
       trace := x_trace |}.

Definition set_acquiring (n' : nat) (s : State) : State :=
  let 'Build_State x_connected x_error x_volume x_audioContextRef
        x_inputContextRef x_streamRef x_processorRef x_sourceRef
        x_nextStartTimeRef x_activeSourcesRef x_sessionPromiseRef
        x_connections x_decoding x_acquiring x_taps x_created x_trace := s in
    {| connected := x_connected; error := x_error; volume := x_volume;
       audioContextRef := x_audioContextRef;
       inputContextRef := x_inputContextRef; streamRef := x_streamRef;
       processorRef := x_processorRef; sourceRef := x_sourceRef;
       nextStartTimeRef := x_nextStartTimeRef;
       activeSourcesRef := x_activeSourcesRef;
       sessionPromiseRef := x_sessionPromiseRef;
       connections := x_connections; decoding := x_decoding; acquiring := n';
       taps := x_taps; created := x_created; trace := x_trace |}.

Definition set_taps (l' : list ScriptProcessorNode) (s : State) : State :=
  let 'Build_State x_connected x_error x_volume x_audioContextRef
        x_inputContextRef x_streamRef x_processorRef x_sourceRef
        x_nextStartTimeRef x_activeSourcesRef x_sessionPromiseRef
        x_connections x_decoding x_acquiring x_taps x_created x_trace := s in
    {| connected := x_connected; error := x_error; volume := x_volume;
       audioContextRef := x_audioContextRef;
       inputContextRef := x_inputContextRef; streamRef := x_streamRef;
       processorRef := x_processorRef; sourceRef := x_sourceRef;
       nextStartTimeRef := x_nextStartTimeRef;
       activeSourcesRef := x_activeSourcesRef;
       sessionPromiseRef := x_sessionPromiseRef;
       connections := x_connections; decoding := x_decoding;
       acquiring := x_acquiring; taps := l'; created := x_created;
       trace := x_trace |}.

Definition set_created (n' : nat) (s : State) : State :=
  let 'Build_State x_connected x_error x_volume x_audioContextRef
        x_inputContextRef x_streamRef x_processorRef x_sourceRef
        x_nextStartTimeRef x_activeSourcesRef x_sessionPromiseRef
        x_connections x_decoding x_acquiring x_taps x_created x_trace := s in
    {| connected := x_connected; error := x_error; volume := x_volume;
       audioContextRef := x_audioContextRef;
       inputContextRef := x_inputContextRef; streamRef := x_streamRef;
       processorRef := x_processorRef; sourceRef := x_sourceRef;
       nextStartTimeRef := x_nextStartTimeRef;
       activeSourcesRef := x_activeSourcesRef;
       sessionPromiseRef := x_sessionPromiseRef;
       connections := x_connections; decoding := x_decoding;
       acquiring := x_acquiring; taps := x_taps; created := n';
       trace := x_trace |}.

Definition set_trace (t' : list Effect) (s : State) : State :=
  let 'Build_State x_connected x_error x_volume x_audioContextRef
        x_inputContextRef x_streamRef x_processorRef x_sourceRef
        x_nextStartTimeRef x_activeSourcesRef x_sessionPromiseRef
        x_connections x_decoding x_acquiring x_taps x_created x_trace := s in
    {| connected := x_connected; error := x_error; volume := x_volume;
       audioContextRef := x_audioContextRef;
       inputContextRef := x_inputContextRef; streamRef := x_streamRef;
       processorRef := x_processorRef; sourceRef := x_sourceRef;
       nextStartTimeRef := x_nextStartTimeRef;
       activeSourcesRef := x_activeSourcesRef;
       sessionPromiseRef := x_sessionPromiseRef;
       connections := x_connections; decoding := x_decoding;
       acquiring := x_acquiring; taps := x_taps; created := x_created;
       trace := t' |}.

(** Record one call on an external object. *)
Definition emit (e : Effect) (s : State) : State := set_trace (trace s ++ [e]) s.

Definition emit_all (es : list Effect) (s : State) : State :=
  set_trace (trace s ++ es) s.

(** ** The active set: a JavaScript [Set] keyed by object identity *)

Definition same_node (a b : AudioBufferSourceNode) : bool :=
  Nat.eqb (nodeId a) (nodeId b).

Definition set_add (x : AudioBufferSourceNode) (l : list AudioBufferSourceNode)
  : list AudioBufferSourceNode :=
  if existsb (same_node x) l then l else l ++ [x].

Definition set_delete (x : AudioBufferSourceNode) (l : list AudioBufferSourceNode)
  : list AudioBufferSourceNode :=
  filter (fun y => negb (same_node x y)) l.

Definition same_tap (p q : ScriptProcessorNode) : bool :=
  match p, q with
  | ScriptProcessor _ i _, ScriptProcessor _ j _ => Nat.eqb i j
  end.

(** Whether a processor is a node of context [c]. *)
Definition on_context (c : AudioContext) (p : ScriptProcessorNode) : bool :=
  match p with ScriptProcessor c' _ _ => Nat.eqb (ctxId c) (ctxId c') end.

Fixpoint remove_nth {A} (i : nat) (l : list A) {struct l} : list A :=
  match l, i with
  | [], _ => []
  | _ :: t, O => t
  | h :: t, S j => h :: remove_nth j t
  end.

Fixpoint replace_nth {A} (i : nat) (x : A) (l : list A) {struct l} : list A :=
  match l, i with
  | [], _ => []
  | _ :: t, O => x :: t
  | h :: t, S j => h :: replace_nth j x t
  end.

Section Callbacks.

Context {utils : AudioUtils}.

(** ** [stopAudio] (lines 78-111) *)

Definition stopAudio (s : State) : State :=
  let s := match processorRef s with
           | Some p =>
               set_processorRef None
                 (set_taps (filter (fun q => negb (same_tap p q)) (taps s))
                    (emit (ProcessorDisconnect p) s))
           | None => s
           end in
  let s := match sourceRef s with
           | Some n => set_sourceRef None (emit (SourceDisconnect n) s)
           | None => s
           end in
  let s := match streamRef s with
           | Some m => set_streamRef None (emit (TrackStop m) s)
           | None => s
           end in
  (* a closed context processes no audio: its processors fire no more *)
  let s := match inputContextRef s with
           | Some c =>
               set_inputContextRef None
                 (set_taps (filter (fun q => negb (on_context c q)) (taps s))
                    (emit (ContextClose c) s))
           | None => s
           end in
  (* activeSourcesRef.current.forEach(source => { try { source.stop() } catch {} }) *)
  let s := emit_all (map SourceStop (activeSourcesRef s)) s in
  let s := set_activeSourcesRef [] s in
  let s := match audioContextRef s with
           | Some c => set_audioContextRef None (emit (ContextClose c) s)
           | None => s
           end in
  set_volume 0 (set_connected false s).

(** ** [startSession] (lines 113-214)

    The function is [async]: it runs up to [await getUserMedia], and its
    continuation runs when the browser settles that promise. *)

Definition startSession_begin (s : State) : State :=
  let s := set_error None s in
  let s := set_audioContextRef
             (Some {| ctxId := created s; sampleRate := 24000 |}) s in
  let s := set_inputContextRef
             (Some {| ctxId := S (created s); sampleRate := 16000 |}) s in
  let s := set_created (S (S (created s))) s in
  set_acquiring (S (acquiring s)) s.

(** The [catch] block: [setError(e.message || "Failed to start session")]. *)
Definition startSession_catch (message : string) (s : State) : State :=
  stopAudio
    (set_error (Some (if truthy message then message
                      else "Failed to start session"%string)) s).

(** [getUserMedia] resolved.  [audioContextRef.current.createGain()] raises
    a [TypeError] when a teardown has nulled the ref in the meantime. *)
Definition startSession_granted (stream : MediaStream) (s : State) : State :=
  let s := set_acquiring (pred (acquiring s)) s in
  let s := set_streamRef (Some stream) s in
  match audioContextRef s with
  | None =>
      startSession_catch
        "Cannot read properties of null (reading 'createGain')"%string s
  | Some _ =>
      let k := List.length (connections s) in
      let s := set_connections
                 (connections s ++
                    [{| micStream := stream; sessionPromise := Pending [] |}]) s in
      set_sessionPromiseRef (Some k) s
  end.

Definition startSession_denied (message : string) (s : State) : State :=
  startSession_catch message (set_acquiring (pred (acquiring s)) s).

(** ** [onopen] (lines 132-159) *)

Definition onopen (stream : MediaStream) (s : State) : State :=
  let s := set_connected true s in
  match inputContextRef s with
  | None => s
  | Some inputContext =>
      let scriptProcessor := ScriptProcessor inputContext (created s) 4096 in
      let s := set_sourceRef (Some (MediaStreamSource stream)) s in
      let s := set_processorRef (Some scriptProcessor) s in
      let s := set_created (S (created s)) s in
      (* source.connect(scriptProcessor); scriptProcessor.connect(destination) *)
      set_taps (taps s ++ [scriptProcessor]) s
  end.

(** ** [onaudioprocess] (lines 143-155) *)

(** [for (i...) sum += inputData[i] * inputData[i]] *)
Definition sum_squares (inputData : list R) : R :=
  fold_left (fun sum x => sum + x * x) inputData 0.

Definition rms (inputData : list R) : R :=
  sqrt (sum_squares inputData / INR (List.length inputData)).

(** [sessionPromiseRef.current?.then(session => session.sendRealtimeInput(...))]:
    nothing without a promise; a reaction kept by an unsettled promise; a
    send on a fulfilled one; nothing on a rejected one. *)
Definition then_send (pcmBlob : Blob) (s : State) : State :=
  match sessionPromiseRef s with
  | None => s
  | Some k =>
      match nth_error (connections s) k with
      | None => s
      | Some c =>
          match sessionPromise c with
          | Pending reactions =>
              set_connections
                (replace_nth k
                   {| micStream := micStream c;
                      sessionPromise := Pending (reactions ++ [pcmBlob]) |}
                   (connections s)) s
          | Fulfilled => emit (SendRealtimeInput k pcmBlob) s
          | Rejected => s
          end
      end
  end.

Definition onaudioprocess (inputData : list R) (s : State) : State :=
  let s := set_volume (Rmax (rms inputData) (volume s * 0.9)) s in
  then_send (createPcmBlob inputData) s.

(** The promise of connection [k] settles: on fulfilment its reactions run
    in registration order. *)
Definition settle (k : nat) (ok : bool) (s : State) : option State :=
  match nth_error (connections s) k with
  | Some c =>
      match sessionPromise c with
      | Pending reactions =>
          let c' := {| micStream := micStream c;
                       sessionPromise := if ok then Fulfilled else Rejected |} in
          let s := set_connections (replace_nth k c' (connections s)) s in
          Some (if ok then emit_all (map (SendRealtimeInput k) reactions) s else s)
      | _ => None
      end
  | None => None
  end.

(** ** [onmessage] (lines 160-189) *)

(** Lines 184-188.  Every source in the set has been started, so [stop]
    does not raise here. *)
Definition interrupt (s : State) : State :=
  let s := emit_all (map SourceStop (activeSourcesRef s)) s in
  let s := set_activeSourcesRef [] s in
  set_nextStartTimeRef 0 s.

Definition handleInterruption (message : LiveServerMessage) (s : State) : State :=
  if isInterrupted message then interrupt s else s.

(** Lines 170-180, with the decoded buffer in hand.
    [source.connect(outputNode)] of line 172 is taken to succeed: the output
    node is the one line 125 made on the context [audioContextRef] held when
    the delivering connection was set up, and the connect raises only when a
    later start has put another context in the ref. *)
Definition schedule (audioBuffer : AudioBuffer) (s : State) : State :=
  let source := {| nodeId := created s; buffer := audioBuffer |} in
  let s := set_created (S (created s)) s in
  let s := emit (SourceStart source (nextStartTimeRef s)) s in
  let s := set_nextStartTimeRef (nextStartTimeRef s + duration audioBuffer) s in
  set_activeSourcesRef (set_add source (activeSourcesRef s)) s.

(** How far one call of the [async] handler got. *)
Inductive Progress :=
| Returned (s : State)
| Threw (s : State)
| Awaiting (k : Suspended) (s : State).

(** Lines 162-168: up to the [await]. *)
Definition onmessage_enter (message : LiveServerMessage) (currentTime : R)
    (s : State) : Progress :=
  match base64Audio message, audioContextRef s with
  | Some a, Some ctx =>
      if truthy a then
        let s := set_nextStartTimeRef
                   (Rmax (nextStartTimeRef s) currentTime) s in
        match base64ToUint8Array a with
        | None => Threw s
        | Some audioBytes =>
            Awaiting {| sCtx := ctx; sBytes := audioBytes; sMessage := message |} s
        end
      else Returned (handleInterruption message s)
  | _, _ => Returned (handleInterruption message s)
  end.

(** Lines 168-188: from the settled [await] to the end. *)
Definition onmessage_resume (k : Suspended) (s : State) : Progress :=
  match decodeAudioData (sBytes k) (sCtx k) with
  | None => Threw s
  | Some audioBuffer =>
      Returned (handleInterruption (sMessage k) (schedule audioBuffer s))
  end.

(** One call of the handler with no other callback running between its
    suspension and its resumption. *)
Definition onmessage (message : LiveServerMessage) (currentTime : R)
    (s : State) : Progress :=
  match onmessage_enter message currentTime s with
  | Awaiting k s' => onmessage_resume k s'
  | p => p
  end.

(** The state a call leaves behind. *)
Definition state_of (p : Progress) : State :=
  match p with
  | Returned s => s
  | Threw s => s
  | Awaiting k s => set_decoding (decoding s ++ [k]) s
  end.

(** ** [onclose] and [onerror] (lines 190-198) *)

Definition onclose (s : State) : State := stopAudio (set_connected false s).

Definition onerror (s : State) : State :=
  stopAudio (set_error (Some "Connection error. Please try again."%string) s).

(** ** The event loop

    Every callback runs to its end or to its [await] before the next event is
    taken.  [step] is [None] for an event the runtime cannot deliver in that
    state: a [getUserMedia] result without a pending request, the settling
    of a promise that is not pending, a channel event of a connection that
    does not exist, a tap callback of a processor that is not connected or
    whose context has been closed, the settling of a decode that is not
    pending.  The channel is opaque: its
    events may come in any order and any number of times. *)
Inductive Event :=
| StartClicked
| MediaGranted (stream : MediaStream)
| MediaDenied (message : string)
| SessionSettled (k : nat) (ok : bool)
| Open (k : nat)
| AudioProcess (p : ScriptProcessorNode) (inputData : list R)
| Message (message : LiveServerMessage) (currentTime : R)
| DecodeSettled (i : nat)
| Ended (source : AudioBufferSourceNode)
| ChannelClose
| ChannelError
| StopClicked.

Definition step (e : Event) (s : State) : option State :=
  match e with
  | StartClicked => Some (startSession_begin s)
  | MediaGranted stream =>
      match acquiring s with
      | O => None
      | S _ => Some (startSession_granted stream s)
      end
  | MediaDenied message =>
      match acquiring s with
      | O => None
      | S _ => Some (startSession_denied message s)
      end
  | SessionSettled k ok => settle k ok s
  | Open k =>
      match nth_error (connections s) k with
      | Some c => Some (onopen (micStream c) s)
      | None => None
      end
  | AudioProcess p inputData =>
      if existsb (same_tap p) (taps s)
      then Some (onaudioprocess inputData s)
      else None
  | Message message currentTime =>
      Some (state_of (onmessage_enter message currentTime s))
  | DecodeSettled i =>
      match nth_error (decoding s) i with
      | Some k =>
          Some (state_of
                  (onmessage_resume k
                     (set_decoding (remove_nth i (decoding s)) s)))
      | None => None
      end
  | Ended source =>
      Some (set_activeSourcesRef (set_delete source (activeSourcesRef s)) s)
  | ChannelClose => Some (onclose s)
  | ChannelError => Some (onerror s)
  | StopClicked => Some (stopAudio s)
  end.

Fixpoint run (es : list Event) (s : State) : option State :=
  match es with
  | [] => Some s
  | e :: es' =>
      match step e s with
      | Some s' => run es' s'
      | None => None
      end
  end.

(** Handling the messages one after the other, each to its end. *)
Fixpoint serial (ms : list (LiveServerMessage * R)) (s : State) : State :=
  match ms with
  | [] => s
  | (m, t) :: ms' => serial ms' (state_of (onmessage m t s))
  end.

(** The start calls of a trace: source and scheduled time. *)
Fixpoint starts (t : list Effect) : list (AudioBufferSourceNode * R) :=
  match t with
  | [] => []
  | SourceStart src w :: t' => (src, w) :: starts t'
  | _ :: t' => starts t'
  end.

(** Back to back or later: each start is no earlier than the end of the
    one before it. *)
Fixpoint chained (l : list (AudioBufferSourceNode * R)) : Prop :=
  match l with
  | [] => True
  | (a, wa) :: l' =>
      match l' with
      | [] => True
      | (_, wb) :: _ => wa + duration (buffer a) <= wb /\ chained l'
      end
  end.

(** Every start of [l] ends by [x]. *)
Definition ends_by (l : list (AudioBufferSourceNode * R)) (x : R) : Prop :=
  forall a wa, In (a, wa) l -> wa + duration (buffer a) <= x.

(** No start of [l] is earlier than [x]. *)
Definition begins_from (l : list (AudioBufferSourceNode * R)) (x : R) : Prop :=
  forall a wa, In (a, wa) l -> x <= wa.


(** A parked call whose message does not carry the interruption flag. *)
Definition calm (k : Suspended) : Prop := isInterrupted (sMessage k) = false.

(** The scheduler's view of one step: either no segment is started and
    [nextStartTimeRef] does not go down, or one segment is started at the
    current [nextStartTimeRef] and the ref moves to its end. *)
Definition sched_step (s s' : State) : Prop :=
  (starts (trace s') = starts (trace s) /\
   nextStartTimeRef s <= nextStartTimeRef s') \/
  (exists src w,
      starts (trace s') = starts (trace s) ++ [(src, w)] /\
      nextStartTimeRef s <= w /\
      nextStartTimeRef s' = w + duration (buffer src)).

(** A block of zeros. *)
Definition silent (inputData : list R) : Prop :=
  inputData <> [] /\ Forall (fun x => x = 0) inputData.

(** A block of samples within full scale. *)
Definition normalized (inputData : list R) : Prop :=
  inputData <> [] /\ Forall (fun x => -1 <= x <= 1) inputData.

(** The capture blocks an event delivers. *)
Definition block_of (e : Event) : option (list R) :=
  match e with
  | AudioProcess _ inputData => Some inputData
  | _ => None
  end.

(** Consecutive tap callbacks. *)
Fixpoint capture (blocks : list (list R)) (s : State) : State :=
  match blocks with
  | [] => s
  | inputData :: blocks' => capture blocks' (onaudioprocess inputData s)
  end.

(** The payloads handed to [sendRealtimeInput] in a trace. *)
Fixpoint sends (t : list Effect) : list Blob :=
  match t with
  | [] => []
  | SendRealtimeInput _ media :: t' => media :: sends t'
  | _ :: t' => sends t'
  end.

(** The payloads an unsettled promise holds for later. *)
Definition reactions_of (c : Connection) : list Blob :=
  match sessionPromise c with
  | Pending reactions => reactions
  | _ => []
  end.

Definition retained (s : State) : list Blob :=
  flat_map reactions_of (connections s).

(** No tap is connected, nothing has been sent and no promise holds a
    payload. *)
Definition untapped (s : State) : Prop :=
  taps s = [] /\ sends (trace s) = [] /\
  Forall (fun c => reactions_of c = []) (connections s).

(** The promise [sessionPromiseRef] points to, if any. *)
Definition currentPromise (s : State) : option PromiseState :=
  match sessionPromiseRef s with
  | Some k =>
      match nth_error (connections s) k with
      | Some c => Some (sessionPromise c)
      | None => None
      end
  | None => None
  end.

Definition is_open (e : Event) : bool :=
  match e with Open _ => true | _ => false end.

(** The buffer an inbound message is decoded to, when it carries audio
    that passes the guard and decodes. *)
Definition chunk_buffer (ctx : option AudioContext) (message : LiveServerMessage)
  : option AudioBuffer :=
  match base64Audio message, ctx with
  | Some a, Some c =>
      if truthy a
      then opt_bind (base64ToUint8Array a) (fun audioBytes =>
             decodeAudioData audioBytes c)
      else None
  | _, _ => None
  end.

Definition chunk_buffers (ctx : option AudioContext)
    (ms : list (LiveServerMessage * R)) : list AudioBuffer :=
  flat_map (fun mt => match chunk_buffer ctx (fst mt) with
                      | Some b => [b]
                      | None => []
                      end) ms.

(** The schedule in which every decode settles before the next message is
    delivered. *)
Fixpoint in_turn (ms : list (LiveServerMessage * R)) (s : State) : list Event :=
  match ms with
  | [] => []
  | (m, t) :: ms' =>
      match onmessage_enter m t s with
      | Awaiting _ _ =>
          Message m t :: DecodeSettled (List.length (decoding s))
            :: in_turn ms' (state_of (onmessage m t s))
      | _ => Message m t :: in_turn ms' (state_of (onmessage m t s))
      end
  end.

(** The calls [stopAudio] makes in a state, in program order. *)
Definition effect_if {A} (o : option A) (f : A -> Effect) : list Effect :=
  match o with Some a => [f a] | None => [] end.

Definition teardown_effects (s : State) : list Effect :=
  effect_if (processorRef s) ProcessorDisconnect ++
  effect_if (sourceRef s) SourceDisconnect ++
  effect_if (streamRef s) TrackStop ++
  effect_if (inputContextRef s) ContextClose ++
  map SourceStop (activeSourcesRef s) ++
  effect_if (audioContextRef s) ContextClose.

(** The processors that still fire after [stopAudio]: not the one that
    [processorRef] holds, and none of the input context that is closed. *)
Definition remaining_taps (s : State) : list ScriptProcessorNode :=
  let connected_taps :=
    match processorRef s with
    | Some p => filter (fun q => negb (same_tap p q)) (taps s)
    | None => taps s
    end in
  match inputContextRef s with
  | Some c => filter (fun q => negb (on_context c q)) connected_taps
  | None => connected_taps
  end.

(** Deliveries of inbound messages, each with the clock reading it finds. *)
Definition deliveries (ms : list (LiveServerMessage * R)) : list Event :=
  map (fun mt => Message (fst mt) (snd mt)) ms.

(** Whether handling an event, or resuming a parked call, reaches the
    interruption branch with the flag set. *)
Definition interrupting (e : Event) : bool :=
  match e with
  | Message message _ => isInterrupted message
  | _ => false
  end.

End Callbacks.

End LiveAgent.


(** * Sample inputs

    One implementation of the helpers (base64 as in the framer, 16-bit
    mono PCM at the output rate) and a few messages, to run the component
    on. *)

Module Scenario.

Import LiveAgent.

Definition pcm16_buffer (audioBytes : list Byte.byte) : option AudioBuffer :=
  if Nat.even (List.length audioBytes)
  then Some {| frames := N.of_nat (Nat.div2 (List.length audioBytes));
               rate := 24000 |}
  else None.

Definition silence (inputData : list R) : Blob :=
  let p := SignalFramer.frame (map (fun _ => SignalFramer.Num 0) inputData) in
  {| mimeType := Some (SignalFramer.mimeType p);
     data := Some (SignalFramer.data p) |}.

Definition sampleUtils : AudioUtils := {|
  createPcmBlob := silence;
  base64ToUint8Array := SignalFramer.base64_decode;
  decodeAudioData := fun audioBytes _ => pcm16_buffer audioBytes
|}.

Definition audioChunk (base64 : string) : LiveServerMessage :=
  {| serverContent := Some
       {| modelTurn := Some
            {| parts := Some
                 [{| inlineData := Some {| mimeType := Some "audio/pcm;rate=24000"%string;
                                            data := Some base64 |} |}] |};
          interrupted := None |} |}.

Definition interruption : LiveServerMessage :=
  {| serverContent := Some {| modelTurn := None; interrupted := Some true |} |}.

(** A session that has been started and whose channel is open. *)
Definition opened : list Event :=
  [StartClicked; MediaGranted (Microphone 0); Open 0].

(** The start button clicked twice before the channel opens: two
    microphone grants and two connections. *)
Definition startedTwice : list Event :=
  [StartClicked; MediaGranted (Microphone 0);
   StartClicked; MediaGranted (Microphone 1)].

(** The processor [opened] creates, on the input context of the start. *)
Definition tap : ScriptProcessorNode :=
  ScriptProcessor {| ctxId := 1; sampleRate := 16000 |} 2 4096.

(** The state [opened] leads to. *)
Definition live : State := {|
  connected := true; error := None; volume := 0;
  audioContextRef := Some {| ctxId := 0; sampleRate := 24000 |};
  inputContextRef := Some {| ctxId := 1; sampleRate := 16000 |};
  streamRef := Some (Microphone 0);
  processorRef := Some tap;
  sourceRef := Some (MediaStreamSource (Microphone 0));
  nextStartTimeRef := 0; activeSourcesRef := [];
  sessionPromiseRef := Some 0%nat;
  connections := [{| micStream := Microphone 0; sessionPromise := Pending [] |}];
  decoding := []; acquiring := 0%nat;
  taps := [tap];
  created := 3%nat; trace := []
|}.

(** [live] with one segment of three frames playing since time 0. *)
Definition playing : State :=
  let source := {| nodeId := 3; buffer := {| frames := 3; rate := 24000 |} |} in
  set_created 4
    (set_activeSourcesRef [source]
       (set_nextStartTimeRef (duration (buffer source))
          (set_trace [SourceStart source 0] live))).

(** The first chunk of the scenarios, one frame long, and the source node
    the live session creates for it. *)
Definition chunk : LiveServerMessage := audioChunk "AAA=".

Definition chunkSource : AudioBufferSourceNode :=
  {| nodeId := 3; buffer := {| frames := 1; rate := 24000 |} |}.


End Scenario.

(** * The refs taken together *)

Module Consistency.

Import LiveAgent.
Local Open Scope R_scope.

(** How the handle refs, [connected] and the error slot go together. *)
Definition wired (s : State) : Prop :=
  (forall p, processorRef s = Some p -> connected s = true /\ In p (taps s)) /\
  (processorRef s = None <-> sourceRef s = None) /\
  (audioContextRef s = None <-> inputContextRef s = None) /\
  (streamRef s <> None -> audioContextRef s <> None) /\
  (processorRef s <> None -> inputContextRef s <> None) /\
  (error s <> None -> audioContextRef s = None).

(** The fields [wired] reads. *)
Definition handles (s : State) :=
  (connected s, error s, audioContextRef s, inputContextRef s, streamRef s,
   processorRef s, sourceRef s, taps s).

(** Every source of the active set is an object created earlier, has been
    started, and is in the set once. *)
Definition started_set (s : State) : Prop :=
  (forall src, In src (activeSourcesRef s) ->
      (exists w, In (SourceStart src w) (trace s)) /\
      (nodeId src < created s)%nat) /\
  NoDup (map nodeId (activeSourcesRef s)).

(** What one step does to the trace, to the object counter and to the
    active set. *)
Definition sources_step (s s' : State) : Prop :=
  (exists es, trace s' = trace s ++ es) /\
  (created s <= created s')%nat /\
  (activeSourcesRef s' = activeSourcesRef s \/
   activeSourcesRef s' = [] \/
   (exists x, activeSourcesRef s' = set_delete x (activeSourcesRef s)) \/
   (exists buf w,
       In (SourceStart {| nodeId := created s; buffer := buf |} w) (trace s') /\
       created s' = S (created s) /\
       activeSourcesRef s' =
         set_add {| nodeId := created s; buffer := buf |} (activeSourcesRef s))).

Section WithUtils.

Context {utils : AudioUtils}.

(** The payloads the tap callbacks of a run produce, in capture order. *)
Definition captured (es : list Event) : list Blob :=
  flat_map (fun e => match block_of e with
                     | Some inputData => [createPcmBlob inputData]
                     | None => []
                     end) es.

End WithUtils.

(** The identity of a processor. *)
Definition tapId (p : ScriptProcessorNode) : nat :=
  match p with ScriptProcessor _ i _ => i end.

(** Every processor that can fire was created before the current object
    count. *)
Definition fresh_taps (s : State) : Prop :=
  Forall (fun q => (tapId q < created s)%nat) (taps s).

(** What one step does to the processors that can fire. *)
Definition taps_step (s s' : State) : Prop :=
  (created s <= created s')%nat /\
  ((forall q, In q (taps s') -> In q (taps s)) \/
   (exists c, inputContextRef s = Some c /\
              taps s' = taps s ++ [ScriptProcessor c (created s) 4096] /\
              created s' = S (created s))).




(** Events that neither open a new connection nor reject a promise. *)
Definition steady (e : Event) : bool :=
  match e with
  | MediaGranted _ => false
  | SessionSettled _ ok => ok
  | _ => true
  end.

(** One connection, to which [sessionPromiseRef] points, not rejected. *)
Definition one_session (s : State) : Prop :=
  sessionPromiseRef s = Some 0%nat /\
  exists c, connections s = [c] /\ sessionPromise c <> Rejected.

End Consistency.

(** * The visualizer (lines 27-76)

    One call of [render], with the values of [volume] and [connected] its
    closure holds.  The arcs all run from 0 to [2 * Math.PI]: they are full
    circles. *)

Module Visualizer.

Local Open Scope R_scope.

(** [canvasRef.current], with whether [getContext('2d')] gives a context. *)
Record Canvas := { width : R; height : R; has2d : bool }.

Inductive Paint :=
| Color (css : string)
| RadialGradient (x0 y0 r0 x1 y1 r1 : R) (stops : list (R * string)).

Inductive CanvasOp :=
| FillRect (fillStyle : Paint) (x y w h : R)
| FillCircle (fillStyle : Paint) (x y radius : R)
| StrokeCircle (strokeStyle : Paint) (lineWidth x y radius : R).

(** [None]: the call returned before drawing and before
    [requestAnimationFrame], so the loop has ended.  [Some ops]: it drew
    [ops] and asked for the next frame. *)
Definition render (canvasRef : option Canvas) (volume : R) (connected : bool)
  : option (list CanvasOp) :=
  match canvasRef with
  | None => None
  | Some canvas =>
      if has2d canvas then
        let centerX := width canvas / 2 in
        let centerY := height canvas / 2 in
        let radius := 50 + volume * 100 in
        let gradient :=
          RadialGradient centerX centerY (radius * 0.5) centerX centerY radius
            [(0, "rgba(139, 92, 246, 0.1)"%string);
             (1, "rgba(139, 92, 246, 0)"%string)] in
        Some
          ([FillRect (Color "rgba(15, 15, 18, 0.2)") 0 0
              (width canvas) (height canvas);
            FillCircle gradient centerX centerY radius;
            FillCircle (Color (if connected then "#8b5cf6" else "#4b5563"))
              centerX centerY (40 + volume * 20)]
           ++
           (if connected then
              if Rlt_dec 0.01 volume then
                [StrokeCircle (Color "rgba(167, 139, 250, 0.5)") 2
                   centerX centerY (45 + volume * 40)]
              else []
            else []))
      else None
  end.

(** The canvas element of the component: [width={300} height={300}]. *)
Definition canvasElement : Canvas :=
  {| width := 300; height := 300; has2d := true |}.

(** A shape that lies within the canvas, its outline included. *)
Definition inside (canvas : Canvas) (op : CanvasOp) : Prop :=
  match op with
  | FillRect _ x y w h =>
      0 <= x /\ 0 <= y /\ 0 <= w /\ 0 <= h /\
      x + w <= width canvas /\ y + h <= height canvas
  | FillCircle _ x y r =>
      0 <= r /\ 0 <= x - r /\ x + r <= width canvas /\
      0 <= y - r /\ y + r <= height canvas
  | StrokeCircle _ lw x y r =>
      0 <= r /\ 0 <= x - (r + lw / 2) /\ x + (r + lw / 2) <= width canvas /\
      0 <= y - (r + lw / 2) /\ y + (r + lw / 2) <= height canvas
  end.

Definition is_stroke (op : CanvasOp) : bool :=
  match op with StrokeCircle _ _ _ _ _ => true | _ => false end.

End Visualizer.

(** * The application shell: mode switching around the component *)

Module App.

Import LiveAgent.

(** [enum AppMode] of [types.ts]. *)
Inductive AppMode := HOME | LIVE | CHAT | STUDIO.

Definition mode_eqb (a b : AppMode) : bool :=
  match a, b with
  | HOME, HOME | LIVE, LIVE | CHAT, CHAT | STUDIO, STUDIO => true
  | _, _ => false
  end.

(** The three navigation buttons and the mode each [onClick] sets. *)
Inductive NavButton := Voice | Chat | Studio.

Definition target (b : NavButton) : AppMode :=
  match b with Voice => LIVE | Chat => CHAT | Studio => STUDIO end.

Definition active (b : NavButton) (mode : AppMode) : bool :=
  mode_eqb mode (target b).

(** The children of [<main>]: one conditional per component. *)
Inductive View := LiveAgentView | ChatAgentView | CreativeStudioView.

Definition main (mode : AppMode) : list View :=
  (if mode_eqb mode LIVE then [LiveAgentView] else []) ++
  (if mode_eqb mode CHAT then [ChatAgentView] else []) ++
  (if mode_eqb mode STUDIO then [CreativeStudioView] else []).

(** The shell with the voice component when it is mounted, and the device
    calls made by instances that have been unmounted. *)
Record AppState := {
  mode : AppMode;
  liveAgent : option State;
  released : list Effect
}.

(** [useState<AppMode>(AppMode.LIVE)]: the voice component is mounted. *)
Definition started : AppState :=
  {| mode := LIVE; liveAgent := Some initial; released := [] |}.

(** The shell is in a mode with a view, and the voice component is
    mounted exactly in [LIVE]. *)
Definition shown (app : AppState) : Prop :=
  mode app <> HOME /\ (liveAgent app <> None <-> mode app = LIVE).

Section WithUtils.

Context {utils : AudioUtils}.

(** [setMode]: leaving [LIVE] unmounts the voice component, whose effect
    cleanup (lines 216-220) calls [stopAudio]; entering [LIVE] mounts a new
    instance; setting the mode it already has changes nothing. *)
Definition setMode (m : AppMode) (app : AppState) : AppState :=
  match liveAgent app with
  | Some s =>
      if mode_eqb m LIVE then
        {| mode := m; liveAgent := Some s; released := released app |}
      else
        {| mode := m; liveAgent := None;
           released := released app ++ trace (stopAudio s) |}
  | None =>
      if mode_eqb m LIVE then
        {| mode := m; liveAgent := Some initial; released := released app |}
      else
        {| mode := m; liveAgent := None; released := released app |}
  end.

Inductive AppEvent :=
| Click (b : NavButton)
| Live (e : Event).

Definition appStep (e : AppEvent) (app : AppState) : option AppState :=
  match e with
  | Click b => Some (setMode (target b) app)
  | Live e' =>
      match liveAgent app with
      | Some s =>
          match step e' s with
          | Some s' =>
              Some {| mode := mode app; liveAgent := Some s';
                      released := released app |}
          | None => None
          end
      | None => None
      end
  end.

Fixpoint appRun (es : list AppEvent) (app : AppState) : option AppState :=
  match es with
  | [] => Some app
  | e :: es' =>
      match appStep e app with
      | Some app' => appRun es' app'
      | None => None
      end
  end.

End WithUtils.

End App.

(** * Facts about the component *)

Module LiveAgentFacts.

Import LiveAgent.
Local Open Scope R_scope.

Lemma duration_nonneg (b : AudioBuffer) : 0 <= duration b.
Proof.
  unfold duration.
  apply Rmult_le_pos.
  - apply IZR_le. lia.
  - left. apply Rinv_0_lt_compat. apply IZR_lt. lia.
Qed.

Lemma starts_app (a b : list Effect) : starts (a ++ b) = starts a ++ starts b.
Proof.
  induction a as [|e a IH]; simpl; [reflexivity|].
  destruct e; simpl; rewrite ?IH; reflexivity.
Qed.

Lemma starts_stops (l : list AudioBufferSourceNode) : starts (map SourceStop l) = [].
Proof. induction l; simpl; auto. Qed.

Lemma starts_sends k (l : list Blob) : starts (map (SendRealtimeInput k) l) = [].
Proof. induction l; simpl; auto. Qed.

Lemma chained_snoc l b w :
  chained l ->
  (forall a wa, In (a, wa) l -> wa + duration (buffer a) <= w) ->
  chained (l ++ [(b, w)]).
Proof.
  induction l as [|[a wa] l IH]; intros Hc Hle; simpl; [exact I|].
  destruct l as [|[a' wa'] l'].
  - simpl. split; [apply Hle; left; reflexivity | exact I].
  - simpl in Hc. destruct Hc as [H1 H2].
    change (wa + duration (buffer a) <= wa' /\ chained (((a', wa') :: l') ++ [(b, w)])).
    split; [exact H1|].
    apply IH; [exact H2|]. intros x wx Hin. apply Hle. right. exact Hin.
Qed.

Section WithUtils.

Context {utils : AudioUtils}.

(** [stopAudio] in closed form. *)
Lemma stopAudio_eq (s : State) :
  stopAudio s =
  {| connected := false; error := error s; volume := 0;
     audioContextRef := None; inputContextRef := None; streamRef := None;
     processorRef := None; sourceRef := None;
     nextStartTimeRef := nextStartTimeRef s; activeSourcesRef := [];
     sessionPromiseRef := sessionPromiseRef s;
     connections := connections s; decoding := decoding s;
     acquiring := acquiring s;
     taps := remaining_taps s;
     created := created s;
     trace := trace s ++ teardown_effects s |}.
Proof.
  destruct s as [co er vo ac ic st pr so ne acs sp cs de aq ta cr tr].
  destruct pr, so, st, ic, ac;
    lazy -[app map filter same_tap on_context Rmult IZR];
    rewrite <- ?app_assoc, ?app_nil_r; reflexivity.
Qed.

Lemma starts_teardown (s : State) : starts (teardown_effects s) = [].
Proof.
  unfold teardown_effects, effect_if.
  destruct (processorRef s), (sourceRef s), (streamRef s), (inputContextRef s),
    (audioContextRef s); cbn [app starts];
    rewrite ?starts_app, ?starts_stops; reflexivity.
Qed.

(** What [stopAudio] leaves of the scheduler's fields and of the trace. *)
Lemma stopAudio_frame (s : State) :
  nextStartTimeRef (stopAudio s) = nextStartTimeRef s /\
  decoding (stopAudio s) = decoding s /\
  connections (stopAudio s) = connections s /\
  sessionPromiseRef (stopAudio s) = sessionPromiseRef s /\
  error (stopAudio s) = error s /\
  created (stopAudio s) = created s /\
  acquiring (stopAudio s) = acquiring s.
Proof. rewrite stopAudio_eq. repeat split; reflexivity. Qed.

Lemma stopAudio_starts (s : State) :
  starts (trace (stopAudio s)) = starts (trace s).
Proof.
  rewrite stopAudio_eq. cbn [trace].
  rewrite starts_app, starts_teardown. apply app_nil_r.
Qed.

Ltac open_state s :=
  destruct s as [co er vo ac ic st pr so ne acs sp cs de aq ta cr tr].

Lemma sched_step_refl s s' :
  starts (trace s') = starts (trace s) ->
  nextStartTimeRef s' = nextStartTimeRef s ->
  sched_step s s'.
Proof. intros H1 H2. left. split; [exact H1 | rewrite H2; apply Rle_refl]. Qed.

Lemma Forall_remove_nth {A} (P : A -> Prop) i l :
  Forall P l -> Forall P (remove_nth i l).
Proof.
  revert i. induction l as [|h t IH]; intros i HF; simpl; [constructor|].
  inversion HF; subst. destruct i; [assumption|]. constructor; auto.
Qed.

Lemma nth_error_Forall {A} (P : A -> Prop) i l x :
  Forall P l -> nth_error l i = Some x -> P x.
Proof.
  intros HF Hn. apply nth_error_In in Hn.
  rewrite Forall_forall in HF. auto.
Qed.

Lemma then_send_sched blob s :
  starts (trace (then_send blob s)) = starts (trace s) /\
  nextStartTimeRef (then_send blob s) = nextStartTimeRef s /\
  decoding (then_send blob s) = decoding s.
Proof.
  unfold then_send. destruct (sessionPromiseRef s) as [k|]; [|auto].
  destruct (nth_error (connections s) k) as [c|]; [|auto].
  destruct (sessionPromise c); open_state s; cbn; rewrite ?starts_app; cbn;
    rewrite ?app_nil_r; auto.
Qed.

#[local] Arguments stopAudio : simpl never.

Ltac stop_frame :=
  match goal with
  | |- context [stopAudio ?x] =>
      let Hn := fresh "Hn" in
      let Hd := fresh "Hd" in
      let Hs := fresh "Hs" in
      destruct (stopAudio_frame x) as (Hn & Hd & _);
      pose proof (stopAudio_starts x) as Hs;
      split;
      [ rewrite Hd
      | apply sched_step_refl; [rewrite Hs | rewrite Hn] ]
  end.

Lemma step_sched e s s' :
  step e s = Some s' ->
  interrupting e = false ->
  Forall calm (decoding s) ->
  Forall calm (decoding s') /\ sched_step s s'.
Proof.
  intros Hstep Hq Hdec.
  destruct e; cbn in Hstep, Hq.
  - (* StartClicked *)
    inversion Hstep; subst. open_state s. cbn in *.
    split; [assumption | apply sched_step_refl; reflexivity].
  - (* MediaGranted *)
    destruct (acquiring s) eqn:Ha; [discriminate|]. inversion Hstep; subst. clear Hstep.
    unfold startSession_granted, startSession_catch.
    open_state s. cbn in *. destruct ac; cbn.
    + split; [assumption | apply sched_step_refl; reflexivity].
    + stop_frame; try reflexivity. exact Hdec.
  - (* MediaDenied *)
    destruct (acquiring s) eqn:Ha; [discriminate|]. inversion Hstep; subst. clear Hstep.
    unfold startSession_denied, startSession_catch.
    open_state s. cbn in *. stop_frame; try reflexivity. exact Hdec.
  - (* SessionSettled *)
    unfold settle in Hstep.
    destruct (nth_error (connections s) k) as [c|]; [|discriminate].
    destruct (sessionPromise c); try discriminate.
    inversion Hstep; subst. clear Hstep.
    destruct ok; open_state s; cbn in *; (split; [assumption|]);
      apply sched_step_refl; cbn; rewrite ?starts_app, ?starts_sends, ?app_nil_r;
      reflexivity.
  - (* Open *)
    destruct (nth_error (connections s) k) as [c|]; [|discriminate].
    inversion Hstep; subst. clear Hstep. unfold onopen.
    open_state s. cbn. destruct ic; cbn in *;
      (split; [assumption | apply sched_step_refl; reflexivity]).
  - (* AudioProcess *)
    destruct (existsb (same_tap p) (taps s)); [|discriminate].
    inversion Hstep; subst. clear Hstep. unfold onaudioprocess.
    match goal with |- context [then_send ?b ?x] =>
      destruct (then_send_sched b x) as (H1 & H2 & H3) end.
    split.
    + rewrite H3. open_state s. exact Hdec.
    + apply sched_step_refl; [rewrite H1 | rewrite H2]; open_state s; reflexivity.
  - (* Message *)
    inversion Hstep; subst. clear Hstep.
    unfold onmessage_enter, handleInterruption. rewrite Hq.
    destruct (base64Audio message) as [a|];
      [|cbn; split; [assumption | apply sched_step_refl; reflexivity]].
    destruct (audioContextRef s) as [ctx|] eqn:Hctx;
      [|cbn; split; [assumption | apply sched_step_refl; reflexivity]].
    destruct (truthy a);
      [|cbn; split; [assumption | apply sched_step_refl; reflexivity]].
    destruct (base64ToUint8Array a) as [bytes|]; cbn.
    + split.
      * open_state s. cbn in *. apply Forall_app. split; [assumption|].
        constructor; [exact Hq | constructor].
      * left. open_state s. cbn. split; [reflexivity | apply Rmax_l].
    + split.
      * open_state s. exact Hdec.
      * left. open_state s. cbn. split; [reflexivity | apply Rmax_l].
  - (* DecodeSettled *)
    destruct (nth_error (decoding s) i) as [k|] eqn:Hk; [|discriminate].
    inversion Hstep; subst. clear Hstep.
    pose proof (nth_error_Forall _ _ _ _ Hdec Hk) as Hcalm.
    unfold onmessage_resume, handleInterruption. rewrite Hcalm.
    destruct (decodeAudioData (sBytes k) (sCtx k)) as [buf|]; cbn.
    + split.
      * open_state s. cbn in *. apply Forall_remove_nth. exact Hdec.
      * right. exists {| nodeId := created s; buffer := buf |}, (nextStartTimeRef s).
        open_state s. cbn. rewrite starts_app. cbn.
        repeat split; try reflexivity; try apply Rle_refl.
    + split.
      * open_state s. cbn in *. apply Forall_remove_nth. exact Hdec.
      * apply sched_step_refl; open_state s; reflexivity.
  - (* Ended *)
    inversion Hstep; subst. open_state s. cbn in *.
    split; [assumption | apply sched_step_refl; reflexivity].
  - (* ChannelClose *)
    inversion Hstep; subst. clear Hstep. unfold onclose.
    open_state s. cbn in *. stop_frame; try reflexivity. exact Hdec.
  - (* ChannelError *)
    inversion Hstep; subst. clear Hstep. unfold onerror.
    open_state s. cbn in *. stop_frame; try reflexivity. exact Hdec.
  - (* StopClicked *)
    inversion Hstep; subst. clear Hstep.
    stop_frame; try reflexivity. exact Hdec.
Qed.

Lemma chained_cons a wa l :
  chained l -> begins_from l (wa + duration (buffer a)) ->
  chained ((a, wa) :: l).
Proof.
  intros Hc Hb. destruct l as [|[b wb] l']; [exact I|].
  change (wa + duration (buffer a) <= wb /\ chained ((b, wb) :: l')).
  split; [apply (Hb b wb); left; reflexivity | exact Hc].
Qed.


(** The segments started by a run without interruption, from any state. *)
Lemma run_chained es : forall s s',
  run es s = Some s' ->
  existsb interrupting es = false ->
  Forall calm (decoding s) ->
  exists new,
    starts (trace s') = starts (trace s) ++ new /\
    chained new /\
    begins_from new (nextStartTimeRef s) /\
    ends_by new (nextStartTimeRef s') /\
    nextStartTimeRef s <= nextStartTimeRef s'.
Proof.
  induction es as [|e es IH]; intros s s' Hrun Hq Hdec.
  - inversion Hrun; subst. exists []. rewrite app_nil_r.
    repeat split; try exact I; try apply Rle_refl; intros a wa [].
  - simpl in Hrun, Hq. apply orb_false_iff in Hq. destruct Hq as [Hq1 Hq2].
    destruct (step e s) as [s1|] eqn:Hstep; [|discriminate].
    destruct (step_sched _ _ _ Hstep Hq1 Hdec) as [Hdec1 Hsched].
    destruct (IH _ _ Hrun Hq2 Hdec1) as (new & Hst & Hch & Hbf & Heb & Hle).
    destruct Hsched as [[Hs Hn] | (src & w & Hs & Hn & Hn')].
    + exists new. rewrite Hst, Hs. repeat split; auto.
      * intros a wa Hin. specialize (Hbf a wa Hin). lra.
      * lra.
    + exists ((src, w) :: new). rewrite Hst, Hs, <- app_assoc. simpl.
      pose proof (duration_nonneg (buffer src)) as Hd.
      split; [reflexivity|]. split.
      { apply chained_cons; [exact Hch|]. rewrite <- Hn'. exact Hbf. }
      split.
      { intros a wa [Heq|Hin]; [inversion Heq; subst; exact Hn|].
        specialize (Hbf a wa Hin). lra. }
      split.
      { intros a wa [Heq|Hin]; [inversion Heq; subst; lra | apply Heb; exact Hin]. }
      lra.
Qed.

(** ** The energy sample *)

Lemma then_send_volume blob s : volume (then_send blob s) = volume s.
Proof.
  unfold then_send. destruct (sessionPromiseRef s) as [k|]; [|reflexivity].
  destruct (nth_error (connections s) k) as [c|]; [|reflexivity].
  destruct (sessionPromise c); open_state s; reflexivity.
Qed.

Lemma onaudioprocess_volume inputData s :
  volume (onaudioprocess inputData s) = Rmax (rms inputData) (volume s * 0.9).
Proof.
  unfold onaudioprocess. rewrite then_send_volume. open_state s. reflexivity.
Qed.

Lemma fold_squares_zero l : forall acc,
  Forall (fun x => x = 0) l ->
  fold_left (fun sum x => sum + x * x) l acc = acc.
Proof.
  induction l as [|x l IH]; intros acc HF; [reflexivity|].
  inversion HF; subst. simpl. rewrite IH by assumption. lra.
Qed.

Lemma fold_squares_bounds l : forall acc,
  Forall (fun x => -1 <= x <= 1) l ->
  acc <= fold_left (fun sum x => sum + x * x) l acc <= acc + INR (List.length l).
Proof.
  induction l as [|x l IH]; intros acc HF.
  - simpl. lra.
  - inversion HF as [|? ? Hx HF']; subst.
    change (fold_left (fun sum x => sum + x * x) (x :: l) acc)
      with (fold_left (fun sum x => sum + x * x) l (acc + x * x)).
    specialize (IH (acc + x * x) HF').
    assert (0 <= x * x <= 1) by nra.
    change (List.length (x :: l)) with (S (List.length l)).
    rewrite S_INR. lra.
Qed.

Lemma rms_silent inputData : silent inputData -> rms inputData = 0.
Proof.
  intros [_ HF]. unfold rms, sum_squares.
  rewrite fold_squares_zero by exact HF.
  unfold Rdiv. rewrite Rmult_0_l. apply sqrt_0.
Qed.

Lemma rms_range inputData : normalized inputData -> 0 <= rms inputData <= 1.
Proof.
  intros [Hne HF]. unfold rms. split; [apply sqrt_pos|].
  rewrite <- sqrt_1. apply sqrt_le_1_alt.
  destruct (fold_squares_bounds inputData 0 HF) as [_ Hub].
  fold (sum_squares inputData) in Hub.
  assert (Hn : 0 < INR (List.length inputData)).
  { apply lt_0_INR. destruct inputData; [congruence | simpl; lia]. }
  apply (Rmult_le_reg_r (INR (List.length inputData))); [exact Hn|].
  unfold Rdiv. rewrite Rmult_assoc, Rinv_l by lra. lra.
Qed.

Lemma capture_silent blocks : forall s,
  Forall silent blocks ->
  0 <= volume s ->
  volume (capture blocks s) = volume s * 0.9 ^ List.length blocks.
Proof.
  induction blocks as [|b blocks IH]; intros s HF Hv.
  - simpl. lra.
  - inversion HF as [|? ? Hb HF']; subst.
    change (capture (b :: blocks) s) with (capture blocks (onaudioprocess b s)).
    assert (Hstep : volume (onaudioprocess b s) = volume s * 0.9).
    { rewrite onaudioprocess_volume, (rms_silent b Hb).
      apply Rmax_right. lra. }
    rewrite IH; [|exact HF' | rewrite Hstep; lra].
    rewrite Hstep. simpl. lra.
Qed.

(** The loop's running sum is the sum of the squared samples. *)
Lemma fold_squares_sum inputData : forall acc,
  fold_left (fun sum x => sum + x * x) inputData acc =
    acc + fold_right Rplus 0 (map (fun x => x * x) inputData).
Proof.
  induction inputData as [|x l IH]; intros acc; cbn [fold_left fold_right map].
  - lra.
  - rewrite IH. lra.
Qed.

Lemma rms_mean_square inputData :
  rms inputData =
    sqrt (fold_right Rplus 0 (map (fun x => x * x) inputData)
          / INR (List.length inputData)).
Proof.
  unfold rms, sum_squares. rewrite fold_squares_sum, Rplus_0_l. reflexivity.
Qed.

Lemma squares_repeat c n :
  fold_right Rplus 0 (map (fun x => x * x) (repeat c n)) = INR n * (c * c).
Proof.
  induction n as [|n IH]; [simpl; lra|].
  change (repeat c (S n)) with (c :: repeat c n).
  cbn [map fold_right]. rewrite IH, S_INR. lra.
Qed.

(** A block that holds one value throughout has that value's magnitude as
    its root mean square. *)
Lemma rms_constant c n : (0 < n)%nat -> rms (repeat c n) = Rabs c.
Proof.
  intros Hn. rewrite rms_mean_square, squares_repeat, repeat_length.
  assert (H : 0 < INR n) by (apply lt_0_INR; exact Hn).
  replace (INR n * (c * c) / INR n) with (Rsqr c)
    by (unfold Rsqr; field; lra).
  apply sqrt_Rsqr_abs.
Qed.

(** C6.  A tap callback sets the energy sample to
    [max(rms, previous * 0.9)], [rms] being the square root of the sum of
    the squared samples divided by their number, so that a block holding
    one value [c] throughout has [rms = |c|] and a block whose [rms] is at
    least [previous * 0.9] sets the energy sample to its [rms]; on a block
    of zeros, from a value that is not negative, it becomes
    [previous * 0.9] and so does not go up; after [n] blocks of zeros it is
    [previous * 0.9 ^ n]; and for every positive [epsilon] there is a number
    of blocks after which it is below [epsilon], the same for every
    previous value in [0, 1]. *)
Theorem C6_energy_attack_and_decay :
  (forall inputData s,
      volume (onaudioprocess inputData s) =
        Rmax (sqrt (fold_right Rplus 0 (map (fun x => x * x) inputData)
                    / INR (List.length inputData)))
             (volume s * 0.9))
  /\
  (forall c n s,
      (0 < n)%nat ->
      volume (onaudioprocess (repeat c n) s) = Rmax (Rabs c) (volume s * 0.9) /\
      (volume s * 0.9 <= Rabs c ->
       volume (onaudioprocess (repeat c n) s) = Rabs c))
  /\
  (forall inputData s,
      silent inputData -> 0 <= volume s ->
      volume (onaudioprocess inputData s) = volume s * 0.9 /\
      volume (onaudioprocess inputData s) <= volume s)
  /\
  (forall blocks s,
      Forall silent blocks -> 0 <= volume s ->
      volume (capture blocks s) = volume s * 0.9 ^ List.length blocks)
  /\
  (forall epsilon,
      0 < epsilon ->
      exists N,
        forall blocks s,
          Forall silent blocks -> 0 <= volume s <= 1 ->
          (N <= List.length blocks)%nat ->
          0 <= volume (capture blocks s) < epsilon).
Proof.
  split.
  { intros inputData s.
    rewrite onaudioprocess_volume, rms_mean_square. reflexivity. }
  split.
  { intros c n s Hn.
    rewrite onaudioprocess_volume, (rms_constant c n Hn).
    split; [reflexivity | intros Hle; apply Rmax_left; exact Hle]. }
  split.
  { intros inputData s Hs Hv.
    rewrite onaudioprocess_volume, (rms_silent inputData Hs).
    rewrite Rmax_right by lra. split; lra. }
  split; [exact capture_silent|].
  intros epsilon Heps.
  destruct (pow_lt_1_zero 0.9) with (y := epsilon) as [N HN];
    [rewrite Rabs_right; lra | exact Heps |].
  exists N. intros blocks s HF [Hv0 Hv1] Hlen.
  rewrite capture_silent by assumption.
  assert (Hp : 0 < 0.9 ^ List.length blocks) by (apply pow_lt; lra).
  specialize (HN (List.length blocks) Hlen).
  rewrite Rabs_right in HN by lra.
  split; [nra | nra].
Qed.

(** ** The playback scheduler *)

Lemma schedule_facts audioBuffer s :
  trace (schedule audioBuffer s) =
    trace s ++ [SourceStart {| nodeId := created s; buffer := audioBuffer |}
                  (nextStartTimeRef s)] /\
  nextStartTimeRef (schedule audioBuffer s) =
    nextStartTimeRef s + duration audioBuffer /\
  activeSourcesRef (schedule audioBuffer s) =
    set_add {| nodeId := created s; buffer := audioBuffer |} (activeSourcesRef s).
Proof. open_state s. cbn. repeat split; reflexivity. Qed.


(** A chunk that passes the guard and decodes: the call returns, having
    clamped [nextStartTimeRef], scheduled the buffer and looked at the
    interruption flag. *)
Lemma enqueue_ok message currentTime s a ctx audioBytes audioBuffer :
  base64Audio message = Some a ->
  truthy a = true ->
  audioContextRef s = Some ctx ->
  base64ToUint8Array a = Some audioBytes ->
  decodeAudioData audioBytes ctx = Some audioBuffer ->
  onmessage message currentTime s =
    Returned
      (handleInterruption message
         (schedule audioBuffer
            (set_nextStartTimeRef (Rmax (nextStartTimeRef s) currentTime) s))).
Proof.
  intros Ha Ht Hc Hb Hd.
  unfold onmessage, onmessage_enter. rewrite Ha, Hc, Ht. cbn zeta. rewrite Hb.
  unfold onmessage_resume. cbn [sBytes sCtx sMessage]. rewrite Hd. reflexivity.
Qed.

(** A chunk that passes the guard and does not decode: the call throws
    after the clamp and before anything else. *)
Lemma enqueue_fails message currentTime s a ctx :
  base64Audio message = Some a ->
  truthy a = true ->
  audioContextRef s = Some ctx ->
  (base64ToUint8Array a = None \/
   exists audioBytes,
     base64ToUint8Array a = Some audioBytes /\
     decodeAudioData audioBytes ctx = None) ->
  onmessage message currentTime s =
    Threw (set_nextStartTimeRef (Rmax (nextStartTimeRef s) currentTime) s).
Proof.
  intros Ha Ht Hc Hfail.
  unfold onmessage, onmessage_enter. rewrite Ha, Hc, Ht. cbn zeta.
  destruct Hfail as [Hb | (audioBytes & Hb & Hd)]; rewrite Hb; [reflexivity|].
  unfold onmessage_resume. cbn [sBytes sCtx sMessage]. rewrite Hd. reflexivity.
Qed.

(** With the guard closed the call goes straight to the interruption
    check. *)
Lemma guard_closed message currentTime s :
  audioContextRef s = None ->
  onmessage_enter message currentTime s = Returned (handleInterruption message s).
Proof.
  intros Hc. unfold onmessage_enter. rewrite Hc.
  destruct (base64Audio message); reflexivity.
Qed.



(** C5, as the code has it.  For a chunk that passes the guard and whose
    bytes do not decode, the call throws: nothing is started or stopped, the
    active set, [connected] and [error] are as before and so is every other
    field, except that [nextStartTimeRef] has been raised to the clock
    reading when it was below it. *)
Theorem C5_failed_decode_only_clamps :
  forall message currentTime s a ctx,
    base64Audio message = Some a ->
    truthy a = true ->
    audioContextRef s = Some ctx ->
    (base64ToUint8Array a = None \/
     exists audioBytes,
       base64ToUint8Array a = Some audioBytes /\
       decodeAudioData audioBytes ctx = None) ->
    exists s',
      onmessage message currentTime s = Threw s' /\
      s' = set_nextStartTimeRef (Rmax (nextStartTimeRef s) currentTime) s /\
      trace s' = trace s /\
      activeSourcesRef s' = activeSourcesRef s /\
      connected s' = connected s /\
      error s' = error s /\
      nextStartTimeRef s' = Rmax (nextStartTimeRef s) currentTime /\
      (currentTime <= nextStartTimeRef s -> s' = s).
Proof.
  intros message currentTime s a ctx Ha Ht Hc Hfail.
  eexists. split; [eapply enqueue_fails; eassumption|].
  open_state s. cbn. repeat split; try reflexivity.
  intros Hle. rewrite Rmax_left by exact Hle. reflexivity.
Qed.

(** ** Teardown *)

Lemma stopAudio_result (s : State) :
  processorRef (stopAudio s) = None /\
  sourceRef (stopAudio s) = None /\
  streamRef (stopAudio s) = None /\
  inputContextRef (stopAudio s) = None /\
  audioContextRef (stopAudio s) = None /\
  activeSourcesRef (stopAudio s) = [] /\
  volume (stopAudio s) = 0 /\
  connected (stopAudio s) = false /\
  trace (stopAudio s) = trace s ++ teardown_effects s.
Proof. rewrite stopAudio_eq. repeat split; reflexivity. Qed.

Lemma stopAudio_twice (s : State) : stopAudio (stopAudio s) = stopAudio s.
Proof.
  rewrite (stopAudio_eq (stopAudio s)).
  destruct (stopAudio_result s) as (H1 & H2 & H3 & H4 & H5 & H6 & H7 & H8 & H9).
  destruct (stopAudio_frame s) as (F1 & F2 & F3 & F4 & F5 & F6 & F7).
  unfold teardown_effects.
  rewrite H1, H2, H3, H4, H5, H6, F1, F2, F3, F4, F5, F6, F7.
  cbn [effect_if map app]. rewrite app_nil_r.
  rewrite (stopAudio_eq s). reflexivity.
Qed.

Lemma existsb_filter_out {A} (f g : A -> bool) (l : list A) :
  existsb f l = false -> existsb f (filter g l) = false.
Proof.
  induction l as [|x l IH]; [reflexivity|].
  cbn [existsb filter]. intros H. apply orb_false_iff in H. destruct H as [H1 H2].
  destruct (g x); cbn [existsb]; [rewrite H1|]; apply IH; exact H2.
Qed.

Lemma stopAudio_untaps (s : State) p :
  processorRef s = Some p -> existsb (same_tap p) (taps (stopAudio s)) = false.
Proof.
  intros Hp. rewrite stopAudio_eq. cbn [taps]. unfold remaining_taps. rewrite Hp.
  assert (H : existsb (same_tap p)
                (filter (fun q => negb (same_tap p q)) (taps s)) = false).
  { induction (taps s) as [|q ta IH]; [reflexivity|].
    cbn [filter]. destruct (same_tap p q) eqn:E; cbn [negb existsb];
      [exact IH | rewrite E; exact IH]. }
  destruct (inputContextRef s); [apply existsb_filter_out|]; exact H.
Qed.

(** C8.  From any state [stopAudio] returns a state (it has no failing
    path) and releases what the refs hold: the processor, source, stream
    and both context refs are null, the active set is empty, the energy
    sample is 0; the processor the ref held has been disconnected and no
    longer fires, the tracks of the stream the ref held, every active
    source and the two contexts the refs held have been stopped or closed,
    in that order; the session promise ref, [nextStartTimeRef] and the
    error slot are left as they were; and a second call changes nothing and
    makes no further call on any device. *)
Theorem C8_teardown_idempotent :
  forall s,
    processorRef (stopAudio s) = None /\
    sourceRef (stopAudio s) = None /\
    streamRef (stopAudio s) = None /\
    inputContextRef (stopAudio s) = None /\
    audioContextRef (stopAudio s) = None /\
    activeSourcesRef (stopAudio s) = [] /\
    volume (stopAudio s) = 0 /\
    connected (stopAudio s) = false /\
    trace (stopAudio s) = trace s ++ teardown_effects s /\
    (forall p, processorRef s = Some p ->
               In (ProcessorDisconnect p) (trace (stopAudio s)) /\
               existsb (same_tap p) (taps (stopAudio s)) = false) /\
    (forall m, streamRef s = Some m -> In (TrackStop m) (trace (stopAudio s))) /\
    (forall src, In src (activeSourcesRef s) ->
                 In (SourceStop src) (trace (stopAudio s))) /\
    (forall c, inputContextRef s = Some c ->
               In (ContextClose c) (trace (stopAudio s))) /\
    (forall c, audioContextRef s = Some c ->
               In (ContextClose c) (trace (stopAudio s))) /\
    teardown_effects (stopAudio s) = [] /\
    (sessionPromiseRef (stopAudio s) = sessionPromiseRef s /\
     nextStartTimeRef (stopAudio s) = nextStartTimeRef s /\
     error (stopAudio s) = error s) /\
    stopAudio (stopAudio s) = stopAudio s.
Proof.
  intros s.
  destruct (stopAudio_result s) as (H1 & H2 & H3 & H4 & H5 & H6 & H7 & H8 & H9).
  repeat (split; [assumption|]).
  assert (Hin : forall e, In e (teardown_effects s) -> In e (trace (stopAudio s))).
  { intros e He. rewrite H9. apply in_or_app. right. exact He. }
  split.
  { intros p Hp. split; [|apply stopAudio_untaps; exact Hp].
    apply Hin. unfold teardown_effects. rewrite Hp. left. reflexivity. }
  split.
  { intros m Hm. apply Hin. unfold teardown_effects. rewrite Hm.
    do 2 (apply in_or_app; right). apply in_or_app. left. left. reflexivity. }
  split.
  { intros src Hsrc. apply Hin. unfold teardown_effects.
    do 4 (apply in_or_app; right). apply in_or_app. left.
    apply in_map. exact Hsrc. }
  split.
  { intros c Hc. apply Hin. unfold teardown_effects. rewrite Hc.
    do 3 (apply in_or_app; right). apply in_or_app. left. left. reflexivity. }
  split.
  { intros c Hc. apply Hin. unfold teardown_effects. rewrite Hc.
    do 5 (apply in_or_app; right). left. reflexivity. }
  split.
  { unfold teardown_effects. rewrite H1, H2, H3, H4, H5, H6. reflexivity. }
  split.
  { destruct (stopAudio_frame s) as (F1 & _ & _ & F4 & F5 & _).
    repeat split; assumption. }
  apply stopAudio_twice.
Qed.

(** What one step of the event loop does to the energy sample. *)
Lemma step_volume e s s' :
  step e s = Some s' ->
  volume s' = volume s \/
  volume s' = 0 \/
  exists inputData,
    block_of e = Some inputData /\
    volume s' = Rmax (rms inputData) (volume s * 0.9).
Proof.
  intros Hstep.
  assert (Hstop : forall x, volume (stopAudio x) = 0)
    by (intros x; apply (stopAudio_result x)).
  destruct e; cbn in Hstep.
  - inversion Hstep; subst. left. open_state s. reflexivity.
  - destruct (acquiring s); [discriminate|]. inversion Hstep; subst.
    unfold startSession_granted, startSession_catch.
    open_state s. cbn. destruct ac; cbn; [left; reflexivity | right; left; apply Hstop].
  - destruct (acquiring s); [discriminate|]. inversion Hstep; subst.
    right. left. apply Hstop.
  - unfold settle in Hstep.
    destruct (nth_error (connections s) k) as [c|]; [|discriminate].
    destruct (sessionPromise c); try discriminate.
    inversion Hstep; subst. left. destruct ok; open_state s; reflexivity.
  - destruct (nth_error (connections s) k) as [c|]; [|discriminate].
    inversion Hstep; subst. left. unfold onopen. open_state s. cbn.
    destruct ic; reflexivity.
  - destruct (existsb (same_tap p) (taps s)); [|discriminate].
    inversion Hstep; subst. right. right. exists inputData.
    split; [reflexivity | apply onaudioprocess_volume].
  - inversion Hstep; subst. left.
    unfold onmessage_enter, handleInterruption, interrupt.
    destruct (base64Audio message) as [a|], (audioContextRef s) as [ctx|];
      try (destruct (isInterrupted message); open_state s; reflexivity).
    destruct (truthy a);
      [|destruct (isInterrupted message); open_state s; reflexivity].
    cbn zeta. destruct (base64ToUint8Array a); open_state s; reflexivity.
  - destruct (nth_error (decoding s) i) as [k|]; [|discriminate].
    inversion Hstep; subst. left.
    unfold onmessage_resume, handleInterruption, interrupt.
    destruct (decodeAudioData (sBytes k) (sCtx k));
      [destruct (isInterrupted (sMessage k))|]; open_state s; reflexivity.
  - inversion Hstep; subst. left. open_state s. reflexivity.
  - inversion Hstep; subst. right. left. apply Hstop.
  - inversion Hstep; subst. right. left. apply Hstop.
  - inversion Hstep; subst. right. left. apply Hstop.
Qed.

Lemma run_volume es : forall s s',
  run es s = Some s' ->
  (forall e inputData, In e es -> block_of e = Some inputData -> normalized inputData) ->
  0 <= volume s <= 1 ->
  0 <= volume s' <= 1.
Proof.
  induction es as [|e es IH]; intros s s' Hrun Hb Hv.
  - inversion Hrun; subst. exact Hv.
  - simpl in Hrun. destruct (step e s) as [s1|] eqn:Hstep; [|discriminate].
    apply (IH s1 s' Hrun).
    + intros e' b Hin. apply Hb. right. exact Hin.
    + destruct (step_volume e s s1 Hstep) as [H | [H | (b & Hblk & H)]];
        rewrite H; [exact Hv | lra |].
      destruct (rms_range b (Hb e b (or_introl eq_refl) Hblk)) as [Hr0 Hr1].
      unfold Rmax. destruct (Rle_dec (rms b) (volume s * 0.9)); lra.
Qed.

(** C7.  The energy sample starts at 0; a tap callback on a block of samples
    within [-1, 1] keeps it within [0, 1]; [stopAudio] puts it back to 0; so
    it is within [0, 1] after any number of such callbacks and in every
    state the event loop reaches from the mounted component when every
    captured block is within [-1, 1]. *)
Theorem C7_energy_in_unit_interval :
  volume initial = 0 /\
  (forall s, volume (stopAudio s) = 0) /\
  (forall inputData s,
      normalized inputData -> 0 <= volume s <= 1 ->
      0 <= volume (onaudioprocess inputData s) <= 1) /\
  (forall blocks,
      Forall normalized blocks -> 0 <= volume (capture blocks initial) <= 1) /\
  (forall es s',
      run es initial = Some s' ->
      (forall e inputData,
          In e es -> block_of e = Some inputData -> normalized inputData) ->
      0 <= volume s' <= 1).
Proof.
  assert (Hone : forall inputData s,
      normalized inputData -> 0 <= volume s <= 1 ->
      0 <= volume (onaudioprocess inputData s) <= 1).
  { intros b s Hb Hv. rewrite onaudioprocess_volume.
    destruct (rms_range b Hb) as [Hr0 Hr1].
    unfold Rmax. destruct (Rle_dec (rms b) (volume s * 0.9)); lra. }
  split; [reflexivity|].
  split; [intros s; apply (stopAudio_result s)|].
  split; [exact Hone|].
  split.
  - intros blocks HF.
    assert (Hgen : forall s, 0 <= volume s <= 1 -> 0 <= volume (capture blocks s) <= 1).
    { induction HF as [|b blocks Hb HF IH]; intros s Hv; [exact Hv|].
      change (capture (b :: blocks) s) with (capture blocks (onaudioprocess b s)).
      apply IH. apply Hone; assumption. }
    apply Hgen. simpl. lra.
  - intros es s' Hrun Hb. apply (run_volume es initial s' Hrun Hb). simpl. lra.
Qed.

(** ** The capture tap and the session promise *)

Lemma sends_app (a b : list Effect) : sends (a ++ b) = sends a ++ sends b.
Proof.
  induction a as [|e a IH]; simpl; [reflexivity|].
  destruct e; simpl; rewrite ?IH; reflexivity.
Qed.

Lemma sends_stops (l : list AudioBufferSourceNode) : sends (map SourceStop l) = [].
Proof. induction l; simpl; auto. Qed.

Lemma sends_map k (l : list Blob) : sends (map (SendRealtimeInput k) l) = l.
Proof. induction l as [|b l IH]; simpl; [reflexivity | rewrite IH; reflexivity]. Qed.

Lemma sends_teardown (s : State) : sends (teardown_effects s) = [].
Proof.
  unfold teardown_effects, effect_if.
  destruct (processorRef s), (sourceRef s), (streamRef s), (inputContextRef s),
    (audioContextRef s); cbn [app sends];
    rewrite ?sends_app, ?sends_stops; reflexivity.
Qed.

Lemma nth_error_replace_nth {A} (l : list A) : forall k x y,
  nth_error l k = Some y -> nth_error (replace_nth k x l) k = Some x.
Proof.
  induction l as [|h t IH]; intros k x y Hk; destruct k; simpl in *;
    try discriminate; [reflexivity | eauto].
Qed.

Lemma Forall_replace_nth {A} (P : A -> Prop) (l : list A) : forall k x,
  Forall P l -> P x -> Forall P (replace_nth k x l).
Proof.
  induction l as [|h t IH]; intros k x HF Hx; simpl; [constructor|].
  inversion HF; subst. destruct k; constructor; auto.
Qed.

(** The three things [then] can do with a payload. *)
Lemma then_send_cases pcmBlob s :
  match currentPromise s with
  | Some (Pending reactions) =>
      trace (then_send pcmBlob s) = trace s /\
      currentPromise (then_send pcmBlob s) = Some (Pending (reactions ++ [pcmBlob]))
  | Some Fulfilled =>
      sends (trace (then_send pcmBlob s)) = sends (trace s) ++ [pcmBlob] /\
      connections (then_send pcmBlob s) = connections s
  | _ =>
      then_send pcmBlob s = s
  end.
Proof.
  unfold currentPromise, then_send.
  destruct (sessionPromiseRef s) as [k|] eqn:Hk; [|reflexivity].
  destruct (nth_error (connections s) k) as [c|] eqn:Hc; [|reflexivity].
  destruct (sessionPromise c) as [reactions| |] eqn:Hp; [| |reflexivity].
  - open_state s. cbn in *. rewrite Hk.
    rewrite (nth_error_replace_nth _ _ _ _ Hc). split; reflexivity.
  - open_state s. cbn. rewrite sends_app. split; reflexivity.
Qed.

Lemma onaudioprocess_then inputData s :
  currentPromise (set_volume (Rmax (rms inputData) (volume s * 0.9)) s)
    = currentPromise s /\
  trace (set_volume (Rmax (rms inputData) (volume s * 0.9)) s) = trace s /\
  connections (set_volume (Rmax (rms inputData) (volume s * 0.9)) s)
    = connections s.
Proof. open_state s. repeat split; reflexivity. Qed.

Lemma stopAudio_untapped s : untapped s -> untapped (stopAudio s).
Proof.
  intros (Ht & Hs & Hc). rewrite stopAudio_eq. unfold untapped.
  cbn [taps trace connections]. unfold remaining_taps.
  rewrite Ht, sends_app, Hs, sends_teardown.
  repeat split;
    [destruct (processorRef s), (inputContextRef s); reflexivity | exact Hc].
Qed.

Lemma step_untapped e s s' :
  step e s = Some s' -> is_open e = false -> untapped s -> untapped s'.
Proof.
  intros Hstep Hno Hu. pose proof Hu as (Ht & Hs & Hc).
  destruct e; cbn in Hstep, Hno; try discriminate.
  - inversion Hstep; subst. open_state s. exact Hu.
  - destruct (acquiring s); [discriminate|]. inversion Hstep; subst.
    unfold startSession_granted, startSession_catch.
    open_state s. cbn in *. destruct ac; cbn.
    + unfold untapped. cbn. repeat split; try assumption.
      apply Forall_app. split; [assumption|].
      constructor; [reflexivity | constructor].
    + apply stopAudio_untapped. exact Hu.
  - destruct (acquiring s); [discriminate|]. inversion Hstep; subst.
    unfold startSession_denied, startSession_catch.
    apply stopAudio_untapped. open_state s. exact Hu.
  - unfold settle in Hstep.
    destruct (nth_error (connections s) k) as [c|] eqn:Hk; [|discriminate].
    destruct (sessionPromise c) as [reactions| |] eqn:Hp; try discriminate.
    assert (reactions = []) as ->.
    { pose proof (nth_error_Forall _ _ _ _ Hc Hk) as Hr.
      unfold reactions_of in Hr. rewrite Hp in Hr. exact Hr. }
    inversion Hstep; subst. clear Hstep.
    destruct ok; open_state s; unfold untapped; cbn in *; rewrite ?app_nil_r;
      (repeat split; try assumption);
      apply Forall_replace_nth; auto.
  - rewrite Ht in Hstep. discriminate.
  - inversion Hstep; subst. clear Hstep.
    unfold onmessage_enter, handleInterruption, interrupt.
    destruct (base64Audio message) as [a|], (audioContextRef s) as [ctx|];
      try (destruct (isInterrupted message); open_state s; unfold untapped;
           cbn in *;
           rewrite ?sends_app, ?sends_stops, ?app_nil_r; repeat split; assumption).
    destruct (truthy a);
      [|destruct (isInterrupted message); open_state s; unfold untapped;
        cbn in *;
        rewrite ?sends_app, ?sends_stops, ?app_nil_r; repeat split; assumption].
    cbn zeta. destruct (base64ToUint8Array a); open_state s; exact Hu.
  - destruct (nth_error (decoding s) i) as [k|]; [|discriminate].
    inversion Hstep; subst. clear Hstep.
    unfold onmessage_resume, handleInterruption, interrupt.
    destruct (decodeAudioData (sBytes k) (sCtx k));
      [destruct (isInterrupted (sMessage k))|]; open_state s; unfold untapped;
      cbn in *;
      rewrite ?sends_app, ?sends_stops; cbn; rewrite ?sends_app, ?Hs; cbn;
      repeat split; assumption.
  - inversion Hstep; subst. open_state s. exact Hu.
  - inversion Hstep; subst. unfold onclose. apply stopAudio_untapped.
    open_state s. exact Hu.
  - inversion Hstep; subst. unfold onerror. apply stopAudio_untapped.
    open_state s. exact Hu.
  - inversion Hstep; subst. apply stopAudio_untapped. exact Hu.
Qed.

Lemma run_untapped es : forall s s',
  run es s = Some s' -> existsb is_open es = false -> untapped s -> untapped s'.
Proof.
  induction es as [|e es IH]; intros s s' Hrun Hno Hu.
  - inversion Hrun; subst. exact Hu.
  - cbn [run] in Hrun. cbn [existsb] in Hno.
    apply orb_false_iff in Hno. destruct Hno as [Hno1 Hno2].
    destruct (step e s) as [s1|] eqn:Hstep; [|discriminate].
    exact (IH s1 s' Hrun Hno2 (step_untapped e s s1 Hstep Hno1 Hu)).
Qed.

(** C4, as the code has it.  The tap callback never looks at the channel:
    it chains the payload on the session promise.  With the promise
    unsettled the payload is kept as a reaction and nothing is sent; when
    the promise then fulfils, every kept payload is sent, in capture order;
    with the promise fulfilled the payload is sent; without a promise, or
    with a rejected one, the payload is dropped.  And in a run from the
    mounted component in which [onopen] has not been called, no tap is
    connected, so no tap callback can be delivered, and nothing has been
    sent or kept. *)
Theorem C4_payload_follows_session_promise :
  (forall inputData s reactions,
      currentPromise s = Some (Pending reactions) ->
      trace (onaudioprocess inputData s) = trace s /\
      currentPromise (onaudioprocess inputData s)
        = Some (Pending (reactions ++ [createPcmBlob inputData])))
  /\
  (forall k s c reactions,
      nth_error (connections s) k = Some c ->
      sessionPromise c = Pending reactions ->
      exists s',
        step (SessionSettled k true) s = Some s' /\
        sends (trace s') = sends (trace s) ++ reactions)
  /\
  (forall inputData s,
      currentPromise s = Some Fulfilled ->
      sends (trace (onaudioprocess inputData s))
        = sends (trace s) ++ [createPcmBlob inputData])
  /\
  (forall inputData s,
      currentPromise s = None \/ currentPromise s = Some Rejected ->
      trace (onaudioprocess inputData s) = trace s /\
      connections (onaudioprocess inputData s) = connections s)
  /\
  (forall es s',
      run es initial = Some s' ->
      existsb is_open es = false ->
      taps s' = [] /\
      sends (trace s') = [] /\
      retained s' = [] /\
      forall p inputData, step (AudioProcess p inputData) s' = None).
Proof.
  split.
  { intros inputData s reactions Hp. unfold onaudioprocess.
    destruct (onaudioprocess_then inputData s) as (E1 & E2 & E3).
    pose proof (then_send_cases (createPcmBlob inputData)
                  (set_volume (Rmax (rms inputData) (volume s * 0.9)) s)) as H.
    rewrite E1, Hp in H. destruct H as [H1 H2].
    split; [rewrite H1; exact E2 | exact H2]. }
  split.
  { intros k s c reactions Hk Hp. cbn [step]. unfold settle. rewrite Hk, Hp.
    eexists. split; [reflexivity|].
    open_state s. cbn. rewrite sends_app, sends_map. reflexivity. }
  split.
  { intros inputData s Hp. unfold onaudioprocess.
    destruct (onaudioprocess_then inputData s) as (E1 & E2 & E3).
    pose proof (then_send_cases (createPcmBlob inputData)
                  (set_volume (Rmax (rms inputData) (volume s * 0.9)) s)) as H.
    rewrite E1, Hp in H. destruct H as [H1 H2]. rewrite H1, E2. reflexivity. }
  split.
  { intros inputData s Hp. unfold onaudioprocess.
    destruct (onaudioprocess_then inputData s) as (E1 & E2 & E3).
    pose proof (then_send_cases (createPcmBlob inputData)
                  (set_volume (Rmax (rms inputData) (volume s * 0.9)) s)) as H.
    rewrite E1 in H.
    destruct Hp as [Hp|Hp]; rewrite Hp in H; rewrite H; split; assumption. }
  intros es s' Hrun Hno.
  assert (Hu : untapped initial) by (repeat split; constructor).
  destruct (run_untapped es initial s' Hrun Hno Hu) as (Ht & Hs & Hc).
  split; [exact Ht|]. split; [exact Hs|]. split.
  - unfold retained. induction Hc as [|c l Hc0 Hc IH]; [reflexivity|].
    cbn [flat_map]. rewrite Hc0, IH. reflexivity.
  - intros p inputData. cbn [step]. rewrite Ht. reflexivity.
Qed.

(** ** Inbound dispatch *)

Lemma nth_error_snoc {A} (l : list A) x : nth_error (l ++ [x]) (List.length l) = Some x.
Proof. induction l as [|h t IH]; [reflexivity | exact IH]. Qed.

Lemma remove_nth_snoc {A} (l : list A) x : remove_nth (List.length l) (l ++ [x]) = l.
Proof. induction l as [|h t IH]; [reflexivity | simpl; rewrite IH; reflexivity]. Qed.

(** Parking a call and resuming it at once is the call run in one go. *)
Lemma park_and_resume message currentTime s k s1 :
  onmessage_enter message currentTime s = Awaiting k s1 ->
  step (DecodeSettled (List.length (decoding s)))
       (state_of (Awaiting k s1))
    = Some (state_of (onmessage message currentTime s)).
Proof.
  intros He. unfold onmessage. rewrite He.
  assert (Hd : decoding s1 = decoding s).
  { unfold onmessage_enter in He.
    destruct (base64Audio message), (audioContextRef s); try discriminate.
    destruct (truthy s0); [|discriminate]. cbn zeta in He.
    destruct (base64ToUint8Array s0); [|discriminate].
    inversion He; subst. open_state s. reflexivity. }
  cbn [step state_of]. rewrite <- Hd.
  replace (decoding (set_decoding (decoding s1 ++ [k]) s1))
    with (decoding s1 ++ [k]) by (open_state s1; reflexivity).
  rewrite nth_error_snoc, remove_nth_snoc.
  replace (set_decoding (decoding s1) (set_decoding (decoding s1 ++ [k]) s1))
    with s1 by (open_state s1; reflexivity).
  reflexivity.
Qed.

Lemma run_in_turn ms : forall s, run (in_turn ms s) s = Some (serial ms s).
Proof.
  induction ms as [|[m t] ms IH]; intros s; [reflexivity|].
  assert (Hcons : forall e es x,
             run (e :: es) x
             = match step e x with Some x' => run es x' | None => None end)
    by reflexivity.
  assert (Hmsg : step (Message m t) s = Some (state_of (onmessage_enter m t s)))
    by reflexivity.
  cbn [in_turn serial].
  destruct (onmessage_enter m t s) as [s1|s1|k s1] eqn:He.
  - rewrite Hcons, Hmsg. unfold onmessage. rewrite He. apply IH.
  - rewrite Hcons, Hmsg. unfold onmessage. rewrite He. apply IH.
  - rewrite Hcons, Hmsg, Hcons.
    rewrite (park_and_resume m t s k s1 He). apply IH.
Qed.

(** What one call run in one go leaves of the parked calls, of the
    context ref and of the started segments. *)
Lemma onmessage_effect message currentTime s :
  decoding (state_of (onmessage message currentTime s)) = decoding s /\
  audioContextRef (state_of (onmessage message currentTime s)) = audioContextRef s /\
  exists new,
    starts (trace (state_of (onmessage message currentTime s)))
      = starts (trace s) ++ new /\
    map (fun sw => buffer (fst sw)) new =
      match chunk_buffer (audioContextRef s) message with
      | Some b => [b]
      | None => []
      end.
Proof.
  unfold onmessage, onmessage_enter, chunk_buffer, handleInterruption, interrupt.
  destruct (base64Audio message) as [a|], (audioContextRef s) as [ctx|] eqn:Hc;
    try (destruct (isInterrupted message); open_state s; cbn in *;
         rewrite ?starts_app, ?starts_stops, ?app_nil_r;
         (repeat split; try assumption); exists []; rewrite app_nil_r;
         split; reflexivity).
  destruct (truthy a);
    [|destruct (isInterrupted message); open_state s; cbn in *;
      rewrite ?starts_app, ?starts_stops, ?app_nil_r;
      (repeat split; try assumption); exists []; rewrite app_nil_r;
      split; reflexivity].
  cbn zeta. destruct (base64ToUint8Array a) as [audioBytes|]; cbn [opt_bind].
  - unfold onmessage_resume, handleInterruption, interrupt. cbn [sBytes sCtx sMessage].
    destruct (decodeAudioData audioBytes ctx) as [buf|].
    + destruct (isInterrupted message); open_state s; cbn in *;
        rewrite ?starts_app, ?starts_stops; cbn; rewrite ?starts_app, ?app_nil_r; cbn;
        (repeat split; try assumption); eexists; split; reflexivity.
    + open_state s; cbn in *. repeat split; try assumption.
      exists []. rewrite app_nil_r. split; reflexivity.
  - open_state s; cbn in *. repeat split; try assumption.
    exists []. rewrite app_nil_r. split; reflexivity.
Qed.

(** C3, as the code has it.  The handler is [async] and nothing holds back a
    delivery while an earlier call is parked at its decode.  When every
    decode settles before the next message is delivered, the event loop does
    what handling the messages one after the other in arrival order does:
    no call is left parked, and the segments started are the decoded chunks
    in arrival order. *)
Theorem C3_in_turn_is_arrival_order :
  forall ms s,
    run (in_turn ms s) s = Some (serial ms s) /\
    decoding (serial ms s) = decoding s /\
    exists new,
      starts (trace (serial ms s)) = starts (trace s) ++ new /\
      map (fun sw => buffer (fst sw)) new = chunk_buffers (audioContextRef s) ms.
Proof.
  intros ms s. split; [apply run_in_turn|].
  revert s. induction ms as [|[m t] ms IH]; intros s.
  - split; [reflexivity|]. exists []. rewrite app_nil_r. split; reflexivity.
  - cbn [serial chunk_buffers flat_map fst].
    destruct (onmessage_effect m t s) as (Hd & Hc & new1 & Hs1 & Hb1).
    destruct (IH (state_of (onmessage m t s))) as (Hd2 & new2 & Hs2 & Hb2).
    split; [congruence|].
    exists (new1 ++ new2). split.
    + rewrite Hs2, Hs1, app_assoc. reflexivity.
    + rewrite map_app, Hb1, Hb2, Hc. reflexivity.
Qed.

(** C10.  After [stopAudio], every message delivered next finds the guard
    closed: its handler returns without parking at a decode, no source is
    created, started or stopped, the active set stays empty and the output
    context ref stays null, whatever the number of messages; and when none
    of them carries the interruption flag the state is left as it was,
    [nextStartTimeRef] included. *)
Theorem C10_messages_after_teardown :
  forall s ms,
    exists s',
      run (deliveries ms) (stopAudio s) = Some s' /\
      audioContextRef s' = None /\
      trace s' = trace (stopAudio s) /\
      activeSourcesRef s' = [] /\
      decoding s' = decoding (stopAudio s) /\
      created s' = created (stopAudio s) /\
      (existsb interrupting (deliveries ms) = false -> s' = stopAudio s).
Proof.
  intros s ms.
  destruct (stopAudio_result s) as (_ & _ & _ & _ & Hc & Ha & _).
  generalize dependent (stopAudio s). clear s.
  induction ms as [|[m t] ms IH]; intros s0 Hc Ha.
  - exists s0. repeat split; auto.
  - cbn [deliveries map fst snd run step].
    rewrite (guard_closed m t s0 Hc). cbn [state_of].
    assert (Hh : audioContextRef (handleInterruption m s0) = None /\
                 activeSourcesRef (handleInterruption m s0) = [] /\
                 trace (handleInterruption m s0) = trace s0 /\
                 decoding (handleInterruption m s0) = decoding s0 /\
                 created (handleInterruption m s0) = created s0 /\
                 (isInterrupted m = false -> handleInterruption m s0 = s0)).
    { unfold handleInterruption. destruct (isInterrupted m).
      - open_state s0. cbn in *. subst. cbn. rewrite app_nil_r.
        repeat split; try reflexivity. discriminate.
      - repeat split; auto. }
    destruct Hh as (Hc' & Ha' & Ht' & Hd' & Hcr' & Hsame).
    destruct (IH _ Hc' Ha') as (s' & Hrun & H1 & H2 & H3 & H4 & H5 & H6).
    exists s'. fold (deliveries ms).
    split; [exact Hrun|]. split; [exact H1|]. split; [congruence|].
    split; [exact H3|]. split; [congruence|]. split; [congruence|].
    cbn [existsb interrupting]. intros Hq. apply orb_false_iff in Hq.
    destruct Hq as [Hq1 Hq2]. rewrite (H6 Hq2). apply Hsame. exact Hq1.
Qed.

End WithUtils.

Lemma run_app {utils : AudioUtils} es1 es2 : forall s,
  run (es1 ++ es2) s =
    match run es1 s with
    | Some s1 => run es2 s1
    | None => None
    end.
Proof.
  induction es1 as [|e es1 IH]; intros s; [reflexivity|].
  cbn [run app]. destruct (step e s); [apply IH | reflexivity].
Qed.

Lemma opened_live :
  @run Scenario.sampleUtils Scenario.opened initial = Some Scenario.live.
Proof. vm_compute. reflexivity. Qed.

Lemma C6_energy_attack_and_decay_witness :
  (volume (@onaudioprocess Scenario.sampleUtils [-0.5; -0.5; -0.5]
             (set_volume 0.5 Scenario.live)) = Rabs (-0.5)) /\
  (volume (@onaudioprocess Scenario.sampleUtils [0; 0; 0]
             (set_volume 0.5 Scenario.live)) = 0.5 * 0.9) /\
  (volume (@capture Scenario.sampleUtils [[0; 0]; [0]; [0; 0; 0]]
             (set_volume 0.5 Scenario.live)) = 0.5 * 0.9 ^ 3) /\
  (exists N,
      forall blocks s,
        Forall silent blocks -> 0 <= volume s <= 1 ->
        (N <= List.length blocks)%nat ->
        0 <= volume (@capture Scenario.sampleUtils blocks s) < 0.01).
Proof.
  destruct (@C6_energy_attack_and_decay Scenario.sampleUtils)
    as (_ & H1 & H2 & H3 & H4).
  assert (Hz : forall l, l <> [] -> Forall (fun x => x = 0) l -> silent l)
    by (intros l Hne HF; split; assumption).
  split.
  { destruct (H1 (-0.5) 3%nat (set_volume 0.5 Scenario.live)) as [_ Ha]; [lia|].
    apply Ha. simpl. rewrite Rabs_left by lra. lra. }
  split.
  - apply (H2 [0; 0; 0] (set_volume 0.5 Scenario.live)).
    + apply Hz; [discriminate | repeat constructor].
    + simpl. lra.
  - split.
    + apply (H3 [[0; 0]; [0]; [0; 0; 0]] (set_volume 0.5 Scenario.live)).
      * repeat constructor; discriminate.
      * simpl. lra.
    + apply (H4 0.01). lra.
Defined.

Lemma C7_energy_in_unit_interval_witness :
  (0 <= volume (@onaudioprocess Scenario.sampleUtils [1; -1; 0.5]
                  (set_volume 0.5 Scenario.live)) <= 1) /\
  (0 <= volume (@capture Scenario.sampleUtils [[1; -1]; [0.25]] initial) <= 1) /\
  (exists s',
      @run Scenario.sampleUtils
        (Scenario.opened ++
           [AudioProcess Scenario.tap [1; -0.5]; StopClicked])
        initial = Some s' /\
      0 <= volume s' <= 1).
Proof.
  destruct (@C7_energy_in_unit_interval Scenario.sampleUtils)
    as (_ & _ & H3 & H4 & H5).
  split.
  - apply (H3 [1; -1; 0.5] (set_volume 0.5 Scenario.live)).
    + split; [discriminate | repeat constructor; lra].
    + simpl. lra.
  - split.
    + apply (H4 [[1; -1]; [0.25]]).
      repeat constructor; try discriminate; lra.
    + assert (E : @run Scenario.sampleUtils
        (Scenario.opened ++
           [AudioProcess Scenario.tap [1; -0.5]; StopClicked])
        initial
        = Some (stopAudio (@onaudioprocess Scenario.sampleUtils [1; -0.5]
                             Scenario.live))).
      { rewrite run_app, opened_live. reflexivity. }
      eexists. split; [exact E|].
      apply (H5 _ _ E).
      intros e b Hin Hb. simpl in Hin.
      destruct Hin as [<-|[<-|[<-|[<-|[<-|[]]]]]]; try discriminate.
      inversion Hb; subst.
      split; [discriminate | repeat constructor; lra].
Defined.

(** Against C3 as specified: an audio chunk arrives, then an
    interruption; the interruption is handled while the chunk's call is
    still parked at its decode, and the chunk is started afterwards, so it
    stays in the active set and [nextStartTimeRef] is left at its end.
    Handled in arrival order, the same two messages leave the active set
    empty and [nextStartTimeRef] at 0. *)
Lemma C3_interruption_overtakes_parked_chunk :
  exists s1 s2 s3 k,
    @step Scenario.sampleUtils (Message Scenario.chunk 1) Scenario.live = Some s1 /\
    decoding s1 = [k] /\ sMessage k = Scenario.chunk /\ starts (trace s1) = [] /\
    @step Scenario.sampleUtils (Message Scenario.interruption 2) s1 = Some s2 /\
    decoding s2 = [k] /\ starts (trace s2) = [] /\ nextStartTimeRef s2 = 0 /\
    @step Scenario.sampleUtils (DecodeSettled 0) s2 = Some s3 /\
    starts (trace s3) = [(Scenario.chunkSource, 0)] /\
    activeSourcesRef s3 = [Scenario.chunkSource] /\
    nextStartTimeRef s3 = 0 + duration (buffer Scenario.chunkSource) /\
    activeSourcesRef
      (@serial Scenario.sampleUtils
         [(Scenario.chunk, 1); (Scenario.interruption, 2)] Scenario.live) = [] /\
    nextStartTimeRef
      (@serial Scenario.sampleUtils
         [(Scenario.chunk, 1); (Scenario.interruption, 2)] Scenario.live) = 0.
Proof.
  eexists. eexists. eexists. eexists.
  split; [vm_compute; reflexivity|].
  split; [vm_compute; reflexivity|].
  split; [vm_compute; reflexivity|].
  split; [vm_compute; reflexivity|].
  split; [vm_compute; reflexivity|].
  split; [vm_compute; reflexivity|].
  split; [vm_compute; reflexivity|].
  split; [vm_compute; reflexivity|].
  split; [vm_compute; reflexivity|].
  split; [vm_compute; reflexivity|].
  split; [vm_compute; reflexivity|].
  split; [vm_compute; reflexivity|].
  split; vm_compute; reflexivity.
Qed.

(** Against C4 as specified: with the tap connected and the
    session promise still unsettled, the payload of a tap callback is kept
    by the promise, and it is sent when the promise fulfils. *)
Lemma C4_early_payload_is_kept_and_sent :
  @run Scenario.sampleUtils Scenario.opened initial = Some Scenario.live /\
  currentPromise Scenario.live = Some (Pending []) /\
  exists s1 s2,
    @step Scenario.sampleUtils (AudioProcess Scenario.tap [0; 0])
      Scenario.live = Some s1 /\
    sends (trace s1) = [] /\
    retained s1 = [Scenario.silence [0; 0]] /\
    @step Scenario.sampleUtils (SessionSettled 0 true) s1 = Some s2 /\
    sends (trace s2) = [Scenario.silence [0; 0]].
Proof.
  split; [exact opened_live|].
  split; [reflexivity|].
  exists (@onaudioprocess Scenario.sampleUtils [0; 0] Scenario.live).
  eexists.
  split; [reflexivity|].
  split; [reflexivity|].
  split; [reflexivity|].
  split; reflexivity.
Qed.

Lemma C4_payload_follows_session_promise_witness :
  (currentPromise (@onaudioprocess Scenario.sampleUtils [0; 0] Scenario.live)
     = Some (Pending [@createPcmBlob Scenario.sampleUtils [0; 0]])) /\
  (exists s',
      @run Scenario.sampleUtils
        [StartClicked; MediaGranted (Microphone 0); SessionSettled 0 true]
        initial = Some s' /\
      taps s' = [] /\ sends (trace s') = [] /\ retained s' = [] /\
      @step Scenario.sampleUtils (AudioProcess Scenario.tap [0; 0]) s'
        = None).
Proof.
  destruct (@C4_payload_follows_session_promise Scenario.sampleUtils)
    as (H1 & _ & _ & _ & H5).
  split.
  - apply (H1 [0; 0] Scenario.live []). reflexivity.
  - assert (exists s', @run Scenario.sampleUtils
        [StartClicked; MediaGranted (Microphone 0); SessionSettled 0 true]
        initial = Some s') as [s' E] by (eexists; vm_compute; reflexivity).
    exists s'. destruct (H5 _ s' E eq_refl) as (A1 & A2 & A3 & A4).
    repeat split; auto.
Defined.


(** Against C5 as specified: a chunk that does not decode,
    arriving at clock reading 1 while [nextStartTimeRef] is 0, leaves
    [nextStartTimeRef] at 1. *)
Lemma C5_failed_decode_moves_next_start :
  exists s',
    @onmessage Scenario.sampleUtils (Scenario.audioChunk "AAAA") 1 Scenario.live
      = Threw s' /\
    nextStartTimeRef Scenario.live = 0 /\
    nextStartTimeRef s' = 1 /\
    nextStartTimeRef s' <> nextStartTimeRef Scenario.live.
Proof.
  eexists. split.
  - apply (@enqueue_fails Scenario.sampleUtils (Scenario.audioChunk "AAAA") 1
             Scenario.live "AAAA"%string {| ctxId := 0; sampleRate := 24000 |});
      try reflexivity.
    right. exists [Byte.x00; Byte.x00; Byte.x00]. split; reflexivity.
  - cbn. rewrite Rmax_right by lra. repeat split; lra.
Qed.

Lemma C5_failed_decode_only_clamps_witness :
  exists s',
    @onmessage Scenario.sampleUtils (Scenario.audioChunk "!!!!") 1 Scenario.playing
      = Threw s' /\
    trace s' = trace Scenario.playing /\
    nextStartTimeRef s' = Rmax (nextStartTimeRef Scenario.playing) 1.
Proof.
  destruct (@C5_failed_decode_only_clamps Scenario.sampleUtils
              (Scenario.audioChunk "!!!!") 1 Scenario.playing "!!!!"%string
              {| ctxId := 0; sampleRate := 24000 |})
    as (s' & E & _ & Ht & _ & _ & _ & Hn & _); try reflexivity.
  - left. reflexivity.
  - exists s'. repeat split; assumption.
Defined.

Lemma C8_teardown_idempotent_witness :
  In (ProcessorDisconnect Scenario.tap)
     (trace (@stopAudio Scenario.playing)) /\
  In (TrackStop (Microphone 0)) (trace (stopAudio Scenario.playing)) /\
  In (SourceStop {| nodeId := 3; buffer := {| frames := 3; rate := 24000 |} |})
     (trace (stopAudio Scenario.playing)) /\
  In (ContextClose {| ctxId := 0; sampleRate := 24000 |})
     (trace (stopAudio Scenario.playing)) /\
  stopAudio (stopAudio Scenario.playing) = stopAudio Scenario.playing.
Proof.
  destruct (C8_teardown_idempotent Scenario.playing)
    as (_ & _ & _ & _ & _ & _ & _ & _ & _ & Hp & Hm & Hs & _ & Hc & _ & _ & Hi).
  split; [apply (Hp Scenario.tap eq_refl)|].
  split; [apply (Hm (Microphone 0) eq_refl)|].
  split; [apply Hs; left; reflexivity|].
  split; [apply (Hc {| ctxId := 0; sampleRate := 24000 |} eq_refl)|].
  exact Hi.
Defined.

(** Against C8 as specified: the start button is clicked twice before the
    channel opens.  The second start overwrites both context refs and the
    second grant overwrites the stream ref, so the teardown stops the second
    stream and closes the second pair of contexts only: the first stream is
    never stopped, the first two contexts are never closed, and
    [sessionPromiseRef] still holds the promise of the second connection.
    A further teardown finds nothing to release. *)
Lemma C8_overwritten_handles_are_not_released :
  exists s',
    @run Scenario.sampleUtils (Scenario.startedTwice ++ [Open 1; StopClicked])
      initial = Some s' /\
    In (TrackStop (Microphone 1)) (trace s') /\
    ~ In (TrackStop (Microphone 0)) (trace s') /\
    In (ContextClose {| ctxId := 2; sampleRate := 24000 |}) (trace s') /\
    In (ContextClose {| ctxId := 3; sampleRate := 16000 |}) (trace s') /\
    ~ In (ContextClose {| ctxId := 0; sampleRate := 24000 |}) (trace s') /\
    ~ In (ContextClose {| ctxId := 1; sampleRate := 16000 |}) (trace s') /\
    sessionPromiseRef s' = Some 1%nat /\
    teardown_effects s' = [].
Proof.
  eexists. split; [vm_compute; reflexivity|].
  cbn [trace sessionPromiseRef].
  split; [cbn; tauto|].
  split; [cbn; intros H; repeat destruct H as [H|H]; try discriminate H; exact H|].
  split; [cbn; tauto|].
  split; [cbn; tauto|].
  split; [cbn; intros H; repeat destruct H as [H|H]; try discriminate H; exact H|].
  split; [cbn; intros H; repeat destruct H as [H|H]; try discriminate H; exact H|].
  split; reflexivity.
Qed.

Lemma C10_messages_after_teardown_witness :
  @run Scenario.sampleUtils
    (deliveries [(Scenario.audioChunk "AAA=", 1); (Scenario.audioChunk "AAAAAAAA", 2)])
    (stopAudio Scenario.playing)
  = Some (stopAudio Scenario.playing).
Proof.
  destruct (@C10_messages_after_teardown Scenario.sampleUtils Scenario.playing
              [(Scenario.audioChunk "AAA=", 1); (Scenario.audioChunk "AAAAAAAA", 2)])
    as (s' & Hrun & _ & _ & _ & _ & _ & Hsame).
  rewrite Hrun. f_equal. apply Hsame. reflexivity.
Defined.

End LiveAgentFacts.

(** * Facts about the Signal Framer *)

Module SignalFramerFacts.
Import SignalFramer.
Local Open Scope Z_scope.

Lemma Z_of_byte_range b : 0 <= Z_of_byte b < 256.
Proof.
  unfold Z_of_byte. pose proof (Byte.to_N_bounded b). lia.
Qed.

Lemma Z_of_byte_of_Z z : 0 <= z < 256 -> Z_of_byte (byte_of_Z z) = z.
Proof.
  intros Hz. unfold Z_of_byte, byte_of_Z.
  destruct (Byte.of_N (Z.to_N z)) as [b|] eqn:E.
  - apply Byte.to_of_N in E. rewrite E. lia.
  - apply Byte.of_N_None_iff in E. lia.
Qed.

Lemma byte_of_Z_of_byte b : byte_of_Z (Z_of_byte b) = b.
Proof.
  unfold Z_of_byte, byte_of_Z. rewrite N2Z.id, Byte.of_to_N. reflexivity.
Qed.

Lemma int16_round_trip k :
  -32768 <= k <= 32767 ->
  exists lo hi, int16_bytes k = [lo; hi] /\ int16_of_bytes lo hi = k.
Proof.
  intros Hk. unfold int16_bytes. eexists. eexists. split; [reflexivity|].
  unfold int16_of_bytes.
  rewrite !Z_of_byte_of_Z by (Z.to_euclidean_division_equations; lia).
  destruct (Z.ltb_spec ((k mod 65536) mod 256 + 256 * (k mod 65536 / 256)) 32768);
    Z.to_euclidean_division_equations; lia.
Qed.

Lemma unpack_pack ks :
  Forall (fun k => -32768 <= k <= 32767) ks -> unpack (pack ks) = Some ks.
Proof.
  induction 1 as [|k ks Hk HF IH]; [reflexivity|].
  destruct (int16_round_trip k Hk) as (lo & hi & E1 & E2).
  unfold pack in *. cbn [flat_map]. rewrite E1. cbn [app unpack].
  rewrite IH, E2. reflexivity.
Qed.

Lemma sextet_round_trip n :
  0 <= n < 64 ->
  sextet_of_char (char_of_sextet n) = Some n /\
  Ascii.eqb (char_of_sextet n) pad = false.
Proof.
  intros Hn.
  assert (exists m, n = Z.of_nat m /\ (m < 64)%nat) as (m & -> & Hm)
    by (exists (Z.to_nat n); lia).
  clear Hn.
  do 64 (destruct m as [|m]; [vm_compute; split; reflexivity|]).
  lia.
Qed.

Lemma list_ind3 {A} (P : list A -> Prop) :
  P [] -> (forall a, P [a]) -> (forall a b, P [a; b]) ->
  (forall a b c rest, P rest -> P (a :: b :: c :: rest)) ->
  forall l, P l.
Proof.
  intros H0 H1 H2 H3 l.
  assert (H : P l /\ (forall a, P (a :: l)) /\ (forall a b, P (a :: b :: l))).
  { induction l as [|x l (IH0 & IH1 & IH2)]; [auto|].
    split; [apply IH1|]. split; [intros a; apply IH2|].
    intros a b. apply H3. exact IH0. }
  apply H.
Qed.

Ltac sextets :=
  repeat match goal with
  | |- context [sextet_of_char (char_of_sextet ?n)] =>
      let H := fresh in
      destruct (sextet_round_trip n) as [H _];
      [Z.to_euclidean_division_equations; lia | rewrite H; clear H]
  | |- context [Ascii.eqb (char_of_sextet ?n) pad] =>
      let H := fresh in
      destruct (sextet_round_trip n) as [_ H];
      [Z.to_euclidean_division_equations; lia | rewrite H; clear H]
  end.

Lemma base64_round_trip bs : base64_decode (base64_encode bs) = Some bs.
Proof.
  induction bs as [|a|a b|a b c rest IH] using list_ind3.
  - reflexivity.
  - pose proof (Z_of_byte_range a) as Ha.
    cbn [base64_encode base64_decode]. cbv zeta. sextets.
    rewrite Ascii.eqb_refl. cbn [andb is_empty].
    replace (Z_of_byte a * 65536 / 262144 * 4 + Z_of_byte a * 65536 / 4096 mod 64 / 16)
      with (Z_of_byte a) by (Z.to_euclidean_division_equations; lia).
    rewrite byte_of_Z_of_byte. reflexivity.
  - pose proof (Z_of_byte_range a) as Ha. pose proof (Z_of_byte_range b) as Hb.
    cbn [base64_encode base64_decode]. cbv zeta. sextets.
    rewrite Ascii.eqb_refl. cbn [is_empty].
    set (n := Z_of_byte a * 65536 + Z_of_byte b * 256).
    replace (n / 262144 * 4 + n / 4096 mod 64 / 16)
      with (Z_of_byte a) by (subst n; Z.to_euclidean_division_equations; lia).
    replace (n / 4096 mod 64 mod 16 * 16 + n / 64 mod 64 / 4)
      with (Z_of_byte b) by (subst n; Z.to_euclidean_division_equations; lia).
    rewrite !byte_of_Z_of_byte. reflexivity.
  - pose proof (Z_of_byte_range a) as Ha. pose proof (Z_of_byte_range b) as Hb.
    pose proof (Z_of_byte_range c) as Hc.
    cbn [base64_encode base64_decode]. cbv zeta. sextets.
    rewrite IH.
    set (n := Z_of_byte a * 65536 + Z_of_byte b * 256 + Z_of_byte c).
    replace (n / 262144 * 4 + n / 4096 mod 64 / 16)
      with (Z_of_byte a) by (subst n; Z.to_euclidean_division_equations; lia).
    replace (n / 4096 mod 64 mod 16 * 16 + n / 64 mod 64 / 4)
      with (Z_of_byte b) by (subst n; Z.to_euclidean_division_equations; lia).
    replace (n / 64 mod 64 mod 4 * 64 + n mod 64)
      with (Z_of_byte c) by (subst n; Z.to_euclidean_division_equations; lia).
    rewrite !byte_of_Z_of_byte. reflexivity.
Qed.

Lemma clamp_range x : (-1 <= clamp x <= 1)%Q.
Proof.
  destruct x as [|q]; simpl.
  - split; discriminate.
  - split; [apply Q.le_max_l|].
    apply Q.max_lub; [discriminate | apply Q.le_min_l].
Qed.

Lemma truncate_scaled c :
  (-1 <= c <= 1)%Q ->
  -32767 <= truncate (c * inject_Z scale) <= 32767 /\
  (Qabs (inject_Z (truncate (c * inject_Z scale)) - c * inject_Z scale) < 1)%Q /\
  (Qabs (inject_Z (truncate (c * inject_Z scale)) / inject_Z scale - c)
     < 1 / inject_Z scale)%Q.
Proof.
  destruct c as [a b]. unfold Qle. cbn [Qnum Qden]. intros [Hlo Hhi].
  unfold truncate, scale. cbn [Qmult Qnum Qden inject_Z].
  rewrite Pos.mul_1_r.
  set (k := (a * 32767) ÷ Z.pos b).
  assert (Hk : a * 32767 = Z.pos b * k + Z.rem (a * 32767) (Z.pos b))
    by (apply Z.quot_rem'; lia).
  assert (Hr : Z.abs (Z.rem (a * 32767) (Z.pos b)) < Z.pos b)
    by (pose proof (Z.rem_bound_abs (a * 32767) (Z.pos b)); lia).
  assert (Hs : 0 <= Z.rem (a * 32767) (Z.pos b) * (a * 32767))
    by (apply Z.rem_sign_mul; lia).
  split; [nia|]. split.
  - apply Qabs_Qlt_condition.
    unfold Qlt, Qminus, Qplus, Qopp, Qmult, inject_Z. cbn [Qnum Qden].
    rewrite ?Pos.mul_1_l, ?Pos.mul_1_r. split; lia.
  - apply Qabs_Qlt_condition.
    unfold Qlt, Qminus, Qplus, Qopp, Qdiv, Qmult, Qinv, inject_Z.
    cbn [Qnum Qden]. rewrite ?Pos.mul_1_l, ?Pos.mul_1_r, ?Pos2Z.inj_mul.
    split; lia.
Qed.

(** C9.  The framer clamps every sample to [-1, 1], a malformed sample
    counting as 0, scales it to a 16-bit signed integer, packs the integers
    low byte first and base64-encodes the bytes under the tag
    [audio/pcm;rate=16000]; reading the payload back gives exactly those
    integers, each less than one quantisation step away from the clamped
    sample it came from. *)
Theorem C9_frame_round_trip :
  forall samples,
    mimeType (frame samples) = "audio/pcm;rate=16000"%string /\
    unframe (frame samples) = Some (map toInt16 samples) /\
    Forall (fun x =>
              (-1 <= clamp x <= 1)%Q /\
              -32768 <= toInt16 x <= 32767 /\
              (Qabs (inject_Z (toInt16 x) - clamp x * inject_Z scale) < 1)%Q /\
              (Qabs (inject_Z (toInt16 x) / inject_Z scale - clamp x)
                 < 1 / inject_Z scale)%Q)
           samples /\
    clamp NaN = 0%Q /\
    toInt16 NaN = 0.
Proof.
  intros samples.
  assert (Hall : forall x,
             (-1 <= clamp x <= 1)%Q /\
             -32768 <= toInt16 x <= 32767 /\
             (Qabs (inject_Z (toInt16 x) - clamp x * inject_Z scale) < 1)%Q /\
             (Qabs (inject_Z (toInt16 x) / inject_Z scale - clamp x)
                < 1 / inject_Z scale)%Q).
  { intros x. pose proof (clamp_range x) as Hc.
    destruct (truncate_scaled (clamp x) Hc) as (Hr & Hq & Hs).
    fold (toInt16 x) in Hr, Hq, Hs.
    split; [exact Hc|]. split; [lia|]. split; [exact Hq | exact Hs]. }
  split; [reflexivity|].
  split.
  - unfold unframe, frame. cbn [data]. rewrite base64_round_trip.
    apply unpack_pack. apply Forall_forall. intros k Hin.
    apply in_map_iff in Hin. destruct Hin as (x & <- & _). apply (Hall x).
  - split; [apply Forall_forall; intros x _; apply Hall|].
    split; reflexivity.
Qed.

Example frame_full_scale :
  frame [Num 1; Num (-1); NaN; Num (1 # 2); Num (-7 # 3); Num 3] =
  {| mimeType := "audio/pcm;rate=16000"; data := "/38BgAAA/z8BgP9/" |}.
Proof. vm_compute. reflexivity. Qed.

Example unframe_full_scale :
  unframe (frame [Num 1; Num (-1); NaN; Num (1 # 2); Num (-7 # 3); Num 3]) =
  Some [32767; -32767; 0; 16383; -32767; 32767].
Proof. vm_compute. reflexivity. Qed.

End SignalFramerFacts.

(** * More facts about the component *)

Module ComponentFacts.

Import LiveAgent Consistency.
Local Open Scope R_scope.

Ltac open_state s :=
  destruct s as [co er vo ac ic st pr so ne acs sp cs de aq ta cr tr].

Ltac find_in :=
  match goal with
  | |- In _ (_ :: _) => first [left; reflexivity | right; find_in]
  | |- In _ (_ ++ _) => apply in_or_app; first [left; find_in | right; find_in]
  end.

Section WithUtils.

Context {utils : AudioUtils}.

(** ** Handles, [connected] and the error slot *)

Lemma wired_handles s s' : handles s' = handles s -> wired s -> wired s'.
Proof.
  unfold handles, wired. intros H. inversion H as [[H1 H2 H3 H4 H5 H6 H7 H8]].
  rewrite H1, H2, H3, H4, H5, H6, H7, H8. auto.
Qed.

Lemma stopAudio_wired s : wired (stopAudio s).
Proof.
  rewrite LiveAgentFacts.stopAudio_eq. unfold wired. cbn.
  repeat split; intros; try discriminate; try reflexivity; try congruence.
Qed.

Lemma then_send_handles blob s : handles (then_send blob s) = handles s.
Proof.
  unfold then_send. destruct (sessionPromiseRef s) as [k|]; [|reflexivity].
  destruct (nth_error (connections s) k) as [c|]; [|reflexivity].
  destruct (sessionPromise c); open_state s; reflexivity.
Qed.

Lemma onmessage_enter_handles message currentTime s :
  handles (state_of (onmessage_enter message currentTime s)) = handles s.
Proof.
  unfold onmessage_enter, handleInterruption, interrupt.
  destruct (base64Audio message) as [a|], (audioContextRef s) as [ctx|];
    try (destruct (isInterrupted message); open_state s; reflexivity).
  destruct (truthy a);
    [|destruct (isInterrupted message); open_state s; reflexivity].
  cbn zeta. destruct (base64ToUint8Array a); open_state s; reflexivity.
Qed.

Lemma onmessage_resume_handles k s :
  handles (state_of (onmessage_resume k s)) = handles s.
Proof.
  unfold onmessage_resume, handleInterruption, interrupt.
  destruct (decodeAudioData (sBytes k) (sCtx k));
    [destruct (isInterrupted (sMessage k))|]; open_state s; reflexivity.
Qed.

Lemma step_wired e s s' : step e s = Some s' -> wired s -> wired s'.
Proof.
  intros Hstep Hw.
  destruct e; cbn in Hstep.
  - inversion Hstep; subst. open_state s. unfold wired in *. cbn in *.
    destruct Hw as (W1 & W2 & W3 & W4 & W5 & W6).
    repeat split; intros; try discriminate; try congruence; try tauto;
      try (eapply W1; eassumption).
  - destruct (acquiring s); [discriminate|]. inversion Hstep; subst.
    unfold startSession_granted, startSession_catch.
    open_state s. cbn in *. destruct ac; cbn; [|apply stopAudio_wired].
    unfold wired in *. cbn in *.
    destruct Hw as (W1 & W2 & W3 & W4 & W5 & W6).
    repeat split; intros; try discriminate; try congruence; try tauto;
      try (eapply W1; eassumption).
  - destruct (acquiring s); [discriminate|]. inversion Hstep; subst.
    apply stopAudio_wired.
  - unfold settle in Hstep.
    destruct (nth_error (connections s) k) as [c|]; [|discriminate].
    destruct (sessionPromise c); try discriminate.
    inversion Hstep; subst. apply (wired_handles s); [|exact Hw].
    destruct ok; open_state s; reflexivity.
  - destruct (nth_error (connections s) k) as [c|]; [|discriminate].
    inversion Hstep; subst. unfold onopen.
    open_state s. unfold wired in *. cbn in *.
    destruct Hw as (W1 & W2 & W3 & W4 & W5 & W6).
    destruct ic; cbn.
    + repeat split; intros; try discriminate; try congruence; try tauto.
      match goal with H : Some _ = Some _ |- _ => inversion H; subst end.
      apply in_or_app. right. left. reflexivity.
    + repeat split; intros; try discriminate; try congruence; try tauto;
        try (eapply W1; eassumption).
  - destruct (existsb (same_tap p) (taps s)); [|discriminate].
    inversion Hstep; subst. apply (wired_handles s); [|exact Hw].
    unfold onaudioprocess. rewrite then_send_handles. open_state s. reflexivity.
  - inversion Hstep; subst. apply (wired_handles s); [|exact Hw].
    apply onmessage_enter_handles.
  - destruct (nth_error (decoding s) i) as [k|]; [|discriminate].
    inversion Hstep; subst. apply (wired_handles s); [|exact Hw].
    rewrite onmessage_resume_handles. open_state s. reflexivity.
  - inversion Hstep; subst. apply (wired_handles s); [|exact Hw].
    open_state s. reflexivity.
  - inversion Hstep; subst. apply stopAudio_wired.
  - inversion Hstep; subst. apply stopAudio_wired.
  - inversion Hstep; subst. apply stopAudio_wired.
Qed.

Lemma run_wired es : forall s s', run es s = Some s' -> wired s -> wired s'.
Proof.
  induction es as [|e es IH]; intros s s' Hrun Hw.
  - inversion Hrun; subst. exact Hw.
  - cbn [run] in Hrun. destruct (step e s) as [s1|] eqn:Hstep; [|discriminate].
    exact (IH s1 s' Hrun (step_wired e s s1 Hstep Hw)).
Qed.

Lemma initial_wired : wired initial.
Proof.
  unfold wired. cbn.
  repeat split; intros; try discriminate; try reflexivity; try congruence.
Qed.

(** X1.  In every state the event loop reaches from the mounted component,
    a processor held in [processorRef] is connected and [connected] is set;
    [processorRef] and [sourceRef] are set or null together, and so are the
    two context refs; a stream or a processor ref is only set while the
    context refs are. *)
Theorem X1_handles_are_consistent :
  forall es s,
    run es initial = Some s ->
    (forall p, processorRef s = Some p -> connected s = true /\ In p (taps s)) /\
    (processorRef s = None <-> sourceRef s = None) /\
    (audioContextRef s = None <-> inputContextRef s = None) /\
    (streamRef s <> None -> audioContextRef s <> None) /\
    (processorRef s <> None -> inputContextRef s <> None).
Proof.
  intros es s Hrun.
  destruct (run_wired es initial s Hrun initial_wired)
    as (W1 & W2 & W3 & W4 & W5 & W6).
  split; [exact W1|]. split; [exact W2|]. split; [exact W3|].
  split; [exact W4 | exact W5].
Qed.

(** X2.  In every state the event loop reaches from the mounted component,
    an error in the error slot means the teardown has run and no start has
    followed: the two context refs, the stream ref, the processor ref and
    the source ref are all null. *)
Theorem X2_error_shown_means_torn_down :
  forall es s,
    run es initial = Some s ->
    error s <> None ->
    audioContextRef s = None /\ inputContextRef s = None /\
    streamRef s = None /\ processorRef s = None /\ sourceRef s = None.
Proof.
  intros es s Hrun He.
  destruct (run_wired es initial s Hrun initial_wired)
    as (W1 & W2 & W3 & W4 & W5 & W6).
  assert (Ha : audioContextRef s = None) by auto.
  assert (Hi : inputContextRef s = None) by (apply W3; exact Ha).
  assert (Hp : processorRef s = None).
  { destruct (processorRef s) eqn:E; [|reflexivity].
    exfalso. apply W5; [discriminate | exact Hi]. }
  repeat split; auto.
  - destruct (streamRef s) eqn:E; [|reflexivity].
    exfalso. apply W4; [discriminate | exact Ha].
  - apply W2. exact Hp.
Qed.

(** ** The active set *)

Lemma then_send_sources blob s :
  (exists es, trace (then_send blob s) = trace s ++ es) /\
  created (then_send blob s) = created s /\
  activeSourcesRef (then_send blob s) = activeSourcesRef s.
Proof.
  unfold then_send. destruct (sessionPromiseRef s) as [k|];
    [|repeat split; exists []; rewrite app_nil_r; reflexivity].
  destruct (nth_error (connections s) k) as [c|];
    [|repeat split; exists []; rewrite app_nil_r; reflexivity].
  destruct (sessionPromise c); open_state s; cbn;
    repeat split; try (exists []; rewrite app_nil_r; reflexivity).
  eexists. reflexivity.
Qed.

Lemma sources_step_stop x s :
  trace x = trace s -> created x = created s -> sources_step s (stopAudio x).
Proof.
  intros Ht Hc. rewrite LiveAgentFacts.stopAudio_eq. unfold sources_step. cbn.
  rewrite Ht, Hc. split; [eexists; reflexivity|]. split; [lia|]. right. left.
  reflexivity.
Qed.

Lemma sources_step_same s s' :
  trace s' = trace s -> (created s <= created s')%nat ->
  activeSourcesRef s' = activeSourcesRef s -> sources_step s s'.
Proof.
  intros Ht Hc Ha. unfold sources_step. rewrite Ht.
  split; [exists []; rewrite app_nil_r; reflexivity|]. split; [exact Hc|].
  left. exact Ha.
Qed.

Lemma step_sources e s s' : step e s = Some s' -> sources_step s s'.
Proof.
  intros Hstep. destruct e; cbn in Hstep.
  - inversion Hstep; subst. apply sources_step_same; open_state s; cbn;
      try reflexivity; try lia.
  - destruct (acquiring s); [discriminate|]. inversion Hstep; subst.
    unfold startSession_granted, startSession_catch.
    open_state s. cbn. destruct ac; cbn.
    + apply sources_step_same; cbn; try reflexivity; try lia.
    + apply sources_step_stop; reflexivity.
  - destruct (acquiring s); [discriminate|]. inversion Hstep; subst.
    unfold startSession_denied, startSession_catch.
    apply sources_step_stop; open_state s; reflexivity.
  - unfold settle in Hstep.
    destruct (nth_error (connections s) k) as [c|]; [|discriminate].
    destruct (sessionPromise c); try discriminate.
    inversion Hstep; subst. destruct ok.
    + unfold sources_step. open_state s. cbn.
      split; [eexists; reflexivity|]. split; [lia|]. left. reflexivity.
    + apply sources_step_same; open_state s; cbn; try reflexivity; try lia.
  - destruct (nth_error (connections s) k) as [c|]; [|discriminate].
    inversion Hstep; subst. unfold onopen. open_state s. cbn.
    destruct ic; apply sources_step_same; cbn; try reflexivity; try lia.
  - destruct (existsb (same_tap p) (taps s)); [|discriminate].
    inversion Hstep; subst. unfold onaudioprocess.
    match goal with |- context [then_send ?b ?x] =>
      destruct (then_send_sources b x) as ((es & H1) & H2 & H3) end.
    unfold sources_step. rewrite H1, H2, H3.
    split; [exists es; open_state s; reflexivity|].
    split; [open_state s; cbn; lia|]. left. open_state s. reflexivity.
  - inversion Hstep; subst.
    unfold onmessage_enter, handleInterruption, interrupt.
    destruct (base64Audio message) as [a|], (audioContextRef s) as [ctx|];
      try (destruct (isInterrupted message);
           [ unfold sources_step; open_state s; cbn;
             split; [eexists; reflexivity|]; split; [lia|]; right; left;
             reflexivity
           | apply sources_step_same; try reflexivity; try lia ]).
    destruct (truthy a);
      [|destruct (isInterrupted message);
        [ unfold sources_step; open_state s; cbn;
          split; [eexists; reflexivity|]; split; [lia|]; right; left;
          reflexivity
        | apply sources_step_same; try reflexivity; try lia ]].
    cbn zeta. destruct (base64ToUint8Array a);
      apply sources_step_same; open_state s; cbn; try reflexivity; try lia.
  - destruct (nth_error (decoding s) i) as [k|]; [|discriminate].
    inversion Hstep; subst.
    unfold onmessage_resume, handleInterruption, interrupt.
    destruct (decodeAudioData (sBytes k) (sCtx k)) as [buf|].
    + destruct (isInterrupted (sMessage k)); unfold sources_step;
        open_state s; cbn.
      * split; [rewrite <- app_assoc; eexists; reflexivity|].
        split; [lia|]. right. left. reflexivity.
      * split; [eexists; reflexivity|]. split; [lia|]. right. right. right.
        exists buf, ne. split; [apply in_or_app; right; left; reflexivity|].
        split; reflexivity.
    + apply sources_step_same; open_state s; cbn; try reflexivity; try lia.
  - inversion Hstep; subst. unfold sources_step. open_state s. cbn.
    split; [exists []; rewrite app_nil_r; reflexivity|]. split; [lia|].
    right. right. left. exists source. reflexivity.
  - inversion Hstep; subst. unfold onclose.
    apply sources_step_stop; open_state s; reflexivity.
  - inversion Hstep; subst. unfold onerror.
    apply sources_step_stop; open_state s; reflexivity.
  - inversion Hstep; subst. apply sources_step_stop; reflexivity.
Qed.

Lemma fresh_not_member x l :
  (forall y, In y l -> (nodeId y < nodeId x)%nat) ->
  existsb (same_node x) l = false.
Proof.
  induction l as [|y l IH]; intros H; [reflexivity|].
  cbn [existsb]. rewrite IH by (intros z Hz; apply H; right; exact Hz).
  unfold same_node. pose proof (H y (or_introl eq_refl)) as Hy.
  destruct (Nat.eqb_spec (nodeId x) (nodeId y)); [lia | reflexivity].
Qed.

Lemma set_delete_fresh x l :
  (forall y, In y l -> (nodeId y < nodeId x)%nat) -> set_delete x l = l.
Proof.
  unfold set_delete. induction l as [|y l IH]; intros H; [reflexivity|].
  cbn [filter]. unfold same_node at 1.
  pose proof (H y (or_introl eq_refl)) as Hy.
  destruct (Nat.eqb_spec (nodeId x) (nodeId y)); [lia|]. cbn [negb].
  rewrite IH by (intros z Hz; apply H; right; exact Hz). reflexivity.
Qed.

Lemma set_delete_In x y l : In y (set_delete x l) -> In y l.
Proof. unfold set_delete. intros H. apply filter_In in H. apply H. Qed.

Lemma set_delete_NoDup x l :
  NoDup (map nodeId l) -> NoDup (map nodeId (set_delete x l)).
Proof.
  unfold set_delete. induction l as [|y l IH]; intros Hnd; [constructor|].
  cbn [map] in Hnd. inversion Hnd as [|? ? Hn Hnd']; subst.
  cbn [filter]. destruct (negb (same_node x y)); [|apply IH; exact Hnd'].
  cbn [map]. constructor; [|apply IH; exact Hnd'].
  intros Hin. apply Hn. apply in_map_iff in Hin.
  destruct Hin as (z & Hz & Hin). apply filter_In in Hin.
  apply in_map_iff. exists z. split; [exact Hz | apply Hin].
Qed.

Lemma step_started_set e s s' :
  step e s = Some s' -> started_set s -> started_set s'.
Proof.
  intros Hstep [Hin Hnd].
  destruct (step_sources e s s' Hstep) as ((es & Ht) & Hc & Hact).
  assert (Hkeep : forall src, In src (activeSourcesRef s) ->
            (exists w, In (SourceStart src w) (trace s')) /\
            (nodeId src < created s')%nat).
  { intros src Hsrc. destruct (Hin src Hsrc) as ((w & Hw) & Hlt).
    split; [|lia]. exists w. rewrite Ht. apply in_or_app. left. exact Hw. }
  destruct Hact as [Ha | [Ha | [(x & Ha) | (buf & w & Hw & Hc' & Ha)]]];
    unfold started_set; rewrite Ha.
  - split; [exact Hkeep | exact Hnd].
  - split; [intros src [] | constructor].
  - split; [|apply set_delete_NoDup; exact Hnd].
    intros src Hsrc. apply Hkeep. exact (set_delete_In x src _ Hsrc).
  - unfold set_add. rewrite fresh_not_member
      by (intros y Hy; cbn [nodeId]; apply (Hin y Hy)).
    split.
    + intros src Hsrc. apply in_app_or in Hsrc. destruct Hsrc as [Hsrc | [<- | []]].
      * apply Hkeep. exact Hsrc.
      * split; [exists w; exact Hw | cbn [nodeId]; lia].
    + rewrite map_app. cbn [map nodeId].
      apply NoDup_app; [exact Hnd | repeat constructor; intros [] |].
      intros n Hn [<- | []]. apply in_map_iff in Hn.
      destruct Hn as (y & Hy1 & Hy2). pose proof (proj2 (Hin y Hy2)). lia.
Qed.

Lemma run_started_set es : forall s s',
  run es s = Some s' -> started_set s -> started_set s'.
Proof.
  induction es as [|e es IH]; intros s s' Hrun Hs.
  - inversion Hrun; subst. exact Hs.
  - cbn [run] in Hrun. destruct (step e s) as [s1|] eqn:Hstep; [|discriminate].
    exact (IH s1 s' Hrun (step_started_set e s s1 Hstep Hs)).
Qed.

Lemma initial_started_set : started_set initial.
Proof. split; [intros src [] | constructor]. Qed.

(** X3.  In every state the event loop reaches from the mounted component,
    every source in the active set has been started (so the [stop] calls of
    the interruption branch, which are not in a [try], find started
    sources), was created before the current object count, and is in the
    set once. *)
Theorem X3_active_sources_have_been_started :
  forall es s,
    run es initial = Some s ->
    (forall src, In src (activeSourcesRef s) ->
        (exists w, In (SourceStart src w) (trace s)) /\
        (nodeId src < created s)%nat) /\
    NoDup (map nodeId (activeSourcesRef s)).
Proof.
  intros es s Hrun. exact (run_started_set es initial s Hrun initial_started_set).
Qed.

(** X4.  In a state the event loop reaches from the mounted component, a
    segment that is scheduled and whose [ended] event then fires leaves the
    active set exactly as it was before the segment was scheduled. *)
Theorem X4_ended_undoes_schedule :
  forall es s audioBuffer,
    run es initial = Some s ->
    exists s',
      step (Ended {| nodeId := created s; buffer := audioBuffer |})
           (schedule audioBuffer s) = Some s' /\
      activeSourcesRef s' = activeSourcesRef s /\
      In {| nodeId := created s; buffer := audioBuffer |}
         (activeSourcesRef (schedule audioBuffer s)).
Proof.
  intros es s audioBuffer Hrun.
  destruct (run_started_set es initial s Hrun initial_started_set) as [Hin _].
  eexists. split; [reflexivity|].
  destruct (LiveAgentFacts.schedule_facts audioBuffer s) as (_ & _ & Ha).
  assert (Hfresh : existsb (same_node {| nodeId := created s; buffer := audioBuffer |})
                     (activeSourcesRef s) = false)
    by (apply fresh_not_member; intros y Hy; cbn [nodeId]; apply (Hin y Hy)).
  split.
  - replace (activeSourcesRef
               (set_activeSourcesRef
                  (set_delete {| nodeId := created s; buffer := audioBuffer |}
                     (activeSourcesRef (schedule audioBuffer s)))
                  (schedule audioBuffer s)))
      with (set_delete {| nodeId := created s; buffer := audioBuffer |}
              (activeSourcesRef (schedule audioBuffer s)))
      by (destruct (schedule audioBuffer s); reflexivity).
    rewrite Ha. unfold set_add. rewrite Hfresh. unfold set_delete.
    rewrite filter_app. cbn [filter]. unfold same_node at 2. cbn [nodeId].
    rewrite Nat.eqb_refl. cbn [negb]. rewrite app_nil_r.
    apply (set_delete_fresh {| nodeId := created s; buffer := audioBuffer |}).
    intros y Hy. cbn [nodeId]. apply (Hin y Hy).
  - rewrite Ha. unfold set_add. rewrite Hfresh. apply in_or_app. right. left.
    reflexivity.
Qed.

(** ** Outbound payloads *)

(** The part of the state the outbound path reads and writes. *)
Lemma stopAudio_session x :
  sends (trace (stopAudio x)) = sends (trace x) /\
  connections (stopAudio x) = connections x /\
  sessionPromiseRef (stopAudio x) = sessionPromiseRef x.
Proof.
  rewrite LiveAgentFacts.stopAudio_eq. cbn.
  rewrite LiveAgentFacts.sends_app, LiveAgentFacts.sends_teardown, app_nil_r.
  repeat split; reflexivity.
Qed.

Lemma one_session_frame s s' :
  sends (trace s') = sends (trace s) ->
  connections s' = connections s ->
  sessionPromiseRef s' = sessionPromiseRef s ->
  one_session s ->
  one_session s' /\
  sends (trace s') ++ retained s' = sends (trace s) ++ retained s ++ [].
Proof.
  intros H1 H2 H3 Hs. unfold one_session, retained in *.
  rewrite H1, H2, H3, app_nil_r. split; [exact Hs | reflexivity].
Qed.

Lemma step_in_order e s s' :
  step e s = Some s' ->
  steady e = true ->
  one_session s ->
  one_session s' /\
  sends (trace s') ++ retained s' =
    sends (trace s) ++ retained s ++ captured [e].
Proof.
  intros Hstep Hsteady Hs.
  destruct e; cbn in Hstep, Hsteady; try discriminate; cbn [captured flat_map block_of].
  - inversion Hstep; subst. apply one_session_frame; try exact Hs;
      open_state s; reflexivity.
  - destruct (acquiring s); [discriminate|]. inversion Hstep; subst.
    unfold startSession_denied, startSession_catch.
    match goal with |- context [stopAudio ?x] =>
      destruct (stopAudio_session x) as (H1 & H2 & H3) end.
    apply one_session_frame; try exact Hs;
      [rewrite H1 | rewrite H2 | rewrite H3]; open_state s; reflexivity.
  - subst ok. unfold settle in Hstep.
    destruct Hs as (Hp & c & Hc & Hr). rewrite Hc in Hstep.
    destruct k as [|k]; [|destruct k; discriminate]. cbn in Hstep.
    destruct (sessionPromise c) as [reactions| |] eqn:Hprom; try discriminate.
    inversion Hstep; subst. clear Hstep.
    unfold one_session, retained, reactions_of.
    open_state s. cbn in *. subst cs. cbn.
    rewrite Hprom, LiveAgentFacts.sends_app, LiveAgentFacts.sends_map, !app_nil_r.
    split; [|reflexivity].
    split; [exact Hp|]. eexists. split; [reflexivity | discriminate].
  - inversion Hstep; subst.
    destruct (nth_error (connections s) k); [|discriminate].
    inversion Hstep; subst. unfold onopen.
    apply one_session_frame; try exact Hs; open_state s; cbn;
      destruct ic; reflexivity.
  - destruct (existsb (same_tap p) (taps s)); [|discriminate].
    inversion Hstep; subst. clear Hstep. unfold onaudioprocess.
    destruct (LiveAgentFacts.onaudioprocess_then inputData s) as (E1 & E2 & E3).
    pose proof (LiveAgentFacts.then_send_cases (createPcmBlob inputData)
                  (set_volume (Rmax (rms inputData) (volume s * 0.9)) s)) as H.
    rewrite E1 in H.
    destruct Hs as (Hp & c & Hc & Hr).
    assert (Hcur : currentPromise s = Some (sessionPromise c))
      by (unfold currentPromise; rewrite Hp, Hc; reflexivity).
    rewrite Hcur in H.
    set (s1 := set_volume (Rmax (rms inputData) (volume s * 0.9)) s) in *.
    assert (Hp1 : sessionPromiseRef (then_send (createPcmBlob inputData) s1) = Some 0%nat).
    { unfold then_send.
      replace (sessionPromiseRef s1) with (Some 0%nat)
        by (subst s1; rewrite <- Hp; open_state s; reflexivity).
      replace (connections s1) with [c] by (subst s1; rewrite <- Hc; exact (eq_sym E3)).
      cbn [nth_error].
      destruct (sessionPromise c); subst s1; open_state s; cbn in *; congruence. }
    destruct (sessionPromise c) as [reactions| |] eqn:Hprom; [| |congruence].
    + destruct H as [H1 H2].
      assert (Hconn : connections (then_send (createPcmBlob inputData) s1)
                      = [{| micStream := micStream c;
                            sessionPromise := Pending (reactions ++ [createPcmBlob inputData]) |}]).
      { unfold then_send.
        replace (sessionPromiseRef s1) with (Some 0%nat)
          by (subst s1; rewrite <- Hp; open_state s; reflexivity).
        replace (connections s1) with [c]
          by (subst s1; rewrite <- Hc; exact (eq_sym E3)).
        cbn [nth_error]. rewrite Hprom.
        replace (connections s1) with [c]
          by (subst s1; rewrite <- Hc; exact (eq_sym E3)).
        subst s1. open_state s. reflexivity. }
      unfold one_session, retained, reactions_of. rewrite Hconn, H1, E2, Hc.
      cbn [flat_map sessionPromise]. rewrite Hprom, !app_nil_r.
      split; [|reflexivity].
      split; [exact Hp1|]. eexists. split; [reflexivity | discriminate].
    + destruct H as [H1 H2].
      unfold one_session, retained, reactions_of. rewrite H2, H1, E2, E3, Hc.
      cbn [flat_map]. rewrite Hprom. cbn [app]. rewrite app_nil_r.
      split; [|reflexivity].
      split; [exact Hp1|]. exists c. split; [reflexivity | congruence].
  - inversion Hstep; subst. apply one_session_frame; try exact Hs;
      unfold onmessage_enter, handleInterruption, interrupt;
      destruct (base64Audio message) as [a|], (audioContextRef s) as [ctx|];
      try (destruct (isInterrupted message); open_state s; cbn;
           rewrite ?LiveAgentFacts.sends_app, ?LiveAgentFacts.sends_stops,
             ?app_nil_r; reflexivity);
      (destruct (truthy a);
       [|destruct (isInterrupted message); open_state s; cbn;
         rewrite ?LiveAgentFacts.sends_app, ?LiveAgentFacts.sends_stops,
           ?app_nil_r; reflexivity]);
      cbn zeta; destruct (base64ToUint8Array a); open_state s; reflexivity.
  - destruct (nth_error (decoding s) i) as [k|]; [|discriminate].
    inversion Hstep; subst. apply one_session_frame; try exact Hs;
      unfold onmessage_resume, handleInterruption, interrupt;
      (destruct (decodeAudioData (sBytes k) (sCtx k));
       [destruct (isInterrupted (sMessage k))|]); open_state s; cbn;
      rewrite ?LiveAgentFacts.sends_app, ?LiveAgentFacts.sends_stops; cbn;
      rewrite ?LiveAgentFacts.sends_app; cbn; rewrite ?app_nil_r; reflexivity.
  - inversion Hstep; subst. apply one_session_frame; try exact Hs;
      open_state s; reflexivity.
  - inversion Hstep; subst. unfold onclose.
    match goal with |- context [stopAudio ?x] =>
      destruct (stopAudio_session x) as (H1 & H2 & H3) end.
    apply one_session_frame; try exact Hs;
      [rewrite H1 | rewrite H2 | rewrite H3]; open_state s; reflexivity.
  - inversion Hstep; subst. unfold onerror.
    match goal with |- context [stopAudio ?x] =>
      destruct (stopAudio_session x) as (H1 & H2 & H3) end.
    apply one_session_frame; try exact Hs;
      [rewrite H1 | rewrite H2 | rewrite H3]; open_state s; reflexivity.
  - inversion Hstep; subst.
    destruct (stopAudio_session s) as (H1 & H2 & H3).
    apply one_session_frame; assumption.
Qed.

Lemma captured_cons e es : captured (e :: es) = captured [e] ++ captured es.
Proof. unfold captured. cbn [flat_map]. rewrite app_nil_r. reflexivity. Qed.

(** X5.  While the component has one connection whose promise is not
    rejected, and no new connection is opened, the payloads of the tap
    callbacks reach [sendRealtimeInput] in capture order, each once: what
    has been sent followed by what the promise still holds is what it was
    before the run followed by the payloads captured during the run. *)
Theorem X5_payloads_sent_once_in_capture_order :
  forall es s s',
    run es s = Some s' ->
    forallb steady es = true ->
    one_session s ->
    sends (trace s') ++ retained s' =
      sends (trace s) ++ retained s ++ captured es.
Proof.
  induction es as [|e es IH]; intros s s' Hrun Hst Hs.
  - inversion Hrun; subst. cbn. rewrite app_nil_r. reflexivity.
  - cbn [run] in Hrun. cbn [forallb] in Hst.
    apply andb_true_iff in Hst. destruct Hst as [Hst1 Hst2].
    destruct (step e s) as [s1|] eqn:Hstep; [|discriminate].
    destruct (step_in_order e s s1 Hstep Hst1 Hs) as [Hs1 Heq].
    rewrite (IH s1 s' Hrun Hst2 Hs1), captured_cons, !app_assoc.
    rewrite <- (app_assoc (sends (trace s))). rewrite <- Heq. reflexivity.
Qed.

(** ** The playback cursor across sessions *)

(** X6.  Nothing but the interruption branch lowers [nextStartTimeRef]: over
    any run of the event loop in which no interruption is handled it never
    goes down, and a teardown followed by a new start leaves it where it
    was, so the first chunk of the new session is scheduled no earlier than
    the cursor the previous session left. *)
Theorem X6_only_interruption_rewinds_cursor :
  (forall es s s',
      run es s = Some s' ->
      existsb interrupting es = false ->
      Forall calm (decoding s) ->
      nextStartTimeRef s <= nextStartTimeRef s')
  /\
  (forall s stream,
      nextStartTimeRef
        (startSession_granted stream (startSession_begin (stopAudio s)))
      = nextStartTimeRef s)
  /\
  (forall s stream message currentTime a audioBytes audioBuffer,
      base64Audio message = Some a ->
      truthy a = true ->
      base64ToUint8Array a = Some audioBytes ->
      decodeAudioData audioBytes
        {| ctxId := created s; sampleRate := 24000 |} = Some audioBuffer ->
      currentTime <= nextStartTimeRef s ->
      exists s1,
        onmessage message currentTime
          (startSession_granted stream (startSession_begin (stopAudio s)))
        = Returned (handleInterruption message s1) /\
        In (SourceStart {| nodeId := S (S (created s)); buffer := audioBuffer |}
              (nextStartTimeRef s)) (trace s1)).
Proof.
  assert (Hrestart : forall s stream,
    startSession_granted stream (startSession_begin (stopAudio s)) =
    set_sessionPromiseRef (Some (List.length (connections s)))
      (set_connections
         (connections s ++ [{| micStream := stream; sessionPromise := Pending [] |}])
         (set_streamRef (Some stream)
            (set_acquiring (acquiring s)
               (set_created (S (S (created s)))
                  (set_inputContextRef
                     (Some {| ctxId := S (created s); sampleRate := 16000 |})
                     (set_audioContextRef
                        (Some {| ctxId := created s; sampleRate := 24000 |})
                        (set_error None (stopAudio s))))))))).
  { intros s stream. rewrite LiveAgentFacts.stopAudio_eq.
    open_state s. reflexivity. }
  split; [|split].
  - intros es s s' Hrun Hq Hdec.
    destruct (LiveAgentFacts.run_chained es s s' Hrun Hq Hdec)
      as (new & _ & _ & _ & _ & Hle). exact Hle.
  - intros s stream. rewrite Hrestart, LiveAgentFacts.stopAudio_eq.
    open_state s. reflexivity.
  - intros s stream message currentTime a audioBytes audioBuffer
      Ha Ht Hb Hd Hle.
    eexists. split.
    + apply (LiveAgentFacts.enqueue_ok message currentTime _ a
               {| ctxId := created s; sampleRate := 24000 |} audioBytes
               audioBuffer Ha Ht); [|exact Hb | exact Hd].
      rewrite Hrestart, LiveAgentFacts.stopAudio_eq. open_state s. reflexivity.
    + rewrite Hrestart, LiveAgentFacts.stopAudio_eq. open_state s. cbn in *.
      rewrite Rmax_left by exact Hle. apply in_or_app. right. left. reflexivity.
Qed.

(** ** Calls that race with a teardown *)

(** X7.  [stopAudio] does not cancel a handler parked at its decode: resumed
    after the teardown with a buffer, it starts a source on the context it
    captured and puts it in the active set, while [audioContextRef] is
    null. *)
Theorem X7_parked_decode_outlives_teardown :
  forall k s audioBuffer,
    decodeAudioData (sBytes k) (sCtx k) = Some audioBuffer ->
    isInterrupted (sMessage k) = false ->
    exists s',
      onmessage_resume k (stopAudio s) = Returned s' /\
      audioContextRef s' = None /\
      activeSourcesRef s' = [{| nodeId := created s; buffer := audioBuffer |}] /\
      trace s' =
        trace s ++ teardown_effects s ++
          [SourceStart {| nodeId := created s; buffer := audioBuffer |}
             (nextStartTimeRef s)].
Proof.
  intros k s audioBuffer Hd Hi.
  unfold onmessage_resume, handleInterruption. rewrite Hd, Hi.
  eexists. split; [reflexivity|].
  rewrite LiveAgentFacts.stopAudio_eq. open_state s. cbn.
  rewrite <- app_assoc. repeat split; reflexivity.
Qed.

(** X8.  An [onopen] that arrives after a teardown finds no input context:
    it sets [connected] and returns, so the view shows a live connection
    although no source node or processor is created and no tap is
    connected. *)
Theorem X8_open_after_teardown_connects_nothing :
  forall s stream,
    connected (onopen stream (stopAudio s)) = true /\
    processorRef (onopen stream (stopAudio s)) = None /\
    sourceRef (onopen stream (stopAudio s)) = None /\
    taps (onopen stream (stopAudio s)) = taps (stopAudio s) /\
    created (onopen stream (stopAudio s)) = created s /\
    trace (onopen stream (stopAudio s)) = trace (stopAudio s).
Proof.
  intros s stream. rewrite LiveAgentFacts.stopAudio_eq.
  open_state s. cbn. repeat split; reflexivity.
Qed.

(** ** The three ways [startSession] ends *)

(** X9.  When [getUserMedia] is refused, the [catch] block shows the error's
    message, or "Failed to start session" when it has none, and the teardown
    closes both contexts the call had just created and nulls every handle
    ref; no connection is opened. *)
Theorem X9_refused_microphone_releases_contexts :
  forall s message,
    error (startSession_denied message (startSession_begin s)) =
      Some (if truthy message then message
            else "Failed to start session"%string) /\
    In (ContextClose {| ctxId := created s; sampleRate := 24000 |})
       (trace (startSession_denied message (startSession_begin s))) /\
    In (ContextClose {| ctxId := S (created s); sampleRate := 16000 |})
       (trace (startSession_denied message (startSession_begin s))) /\
    audioContextRef (startSession_denied message (startSession_begin s)) = None /\
    inputContextRef (startSession_denied message (startSession_begin s)) = None /\
    streamRef (startSession_denied message (startSession_begin s)) = None /\
    connected (startSession_denied message (startSession_begin s)) = false /\
    connections (startSession_denied message (startSession_begin s))
      = connections s /\
    sessionPromiseRef (startSession_denied message (startSession_begin s))
      = sessionPromiseRef s.
Proof.
  intros s message. unfold startSession_denied, startSession_catch.
  rewrite LiveAgentFacts.stopAudio_eq. unfold teardown_effects.
  open_state s. cbn -[In].
  split; [reflexivity|].
  split; [find_in|]. split; [find_in|].
  repeat split; reflexivity.
Qed.

(** X10.  When [getUserMedia] resolves after a teardown has nulled the
    output context ref, the continuation raises at [createGain], the
    [catch] block shows an error and the teardown stops the tracks of the
    stream that was just granted; no connection is opened. *)
Theorem X10_late_microphone_grant_is_released :
  forall s stream,
    audioContextRef s = None ->
    error (startSession_granted stream s) <> None /\
    In (TrackStop stream) (trace (startSession_granted stream s)) /\
    streamRef (startSession_granted stream s) = None /\
    connections (startSession_granted stream s) = connections s /\
    sessionPromiseRef (startSession_granted stream s) = sessionPromiseRef s.
Proof.
  intros s stream Hc. unfold startSession_granted, startSession_catch.
  replace (audioContextRef
             (set_streamRef (Some stream)
                (set_acquiring (Init.Nat.pred (acquiring s)) s)))
    with (@None AudioContext) by (rewrite <- Hc; open_state s; reflexivity).
  rewrite LiveAgentFacts.stopAudio_eq. unfold teardown_effects.
  open_state s. cbn -[In] in *. subst ac.
  split; [discriminate|].
  split; [find_in|].
  repeat split; reflexivity.
Qed.

(** X11.  When [getUserMedia] resolves with nothing in between, the call
    leaves an output context at 24000 Hz, an input context at 16000 Hz, the
    stream in [streamRef] and [sessionPromiseRef] on a new unsettled
    promise, with no error shown; [connected] is not set, no tap is
    connected and no device call has been made. *)
Theorem X11_start_prepares_session :
  forall s stream,
    error (startSession_granted stream (startSession_begin s)) = None /\
    audioContextRef (startSession_granted stream (startSession_begin s))
      = Some {| ctxId := created s; sampleRate := 24000 |} /\
    inputContextRef (startSession_granted stream (startSession_begin s))
      = Some {| ctxId := S (created s); sampleRate := 16000 |} /\
    streamRef (startSession_granted stream (startSession_begin s))
      = Some stream /\
    currentPromise (startSession_granted stream (startSession_begin s))
      = Some (Pending []) /\
    connected (startSession_granted stream (startSession_begin s))
      = connected s /\
    taps (startSession_granted stream (startSession_begin s)) = taps s /\
    trace (startSession_granted stream (startSession_begin s)) = trace s.
Proof.
  intros s stream. unfold currentPromise. open_state s. cbn.
  rewrite LiveAgentFacts.nth_error_snoc. repeat split; reflexivity.
Qed.

(** ** What a second start leaves behind *)

(** X12.  [startSession] replaces the context refs without closing what
    they hold: when it is called while an output context is held, a
    teardown that follows closes the two new contexts only, and the
    earlier one, no longer referenced, has not been closed. *)
Theorem X12_second_start_drops_open_context :
  forall s c,
    audioContextRef s = Some c ->
    (ctxId c < created s)%nat ->
    trace (startSession_begin s) = trace s /\
    audioContextRef (startSession_begin s) <> Some c /\
    inputContextRef (startSession_begin s) <> Some c /\
    exists added,
      trace (stopAudio (startSession_begin s)) = trace s ++ added /\
      ~ In (ContextClose c) added /\
      In (ContextClose {| ctxId := created s; sampleRate := 24000 |}) added /\
      In (ContextClose {| ctxId := S (created s); sampleRate := 16000 |}) added.
Proof.
  intros s c Hc Hlt.
  rewrite LiveAgentFacts.stopAudio_eq. unfold teardown_effects.
  open_state s. cbn -[In app effect_if] in *. subst ac.
  split; [reflexivity|].
  split; [intros H; inversion H; subst; cbn in Hlt; lia|].
  split; [intros H; inversion H; subst; cbn in Hlt; lia|].
  eexists. split; [reflexivity|].
  split.
  - intros Hin. repeat (apply in_app_or in Hin; destruct Hin as [Hin|Hin]).
    + destruct pr; cbn in Hin; [destruct Hin as [Hin|[]]; discriminate | destruct Hin].
    + destruct so; cbn in Hin; [destruct Hin as [Hin|[]]; discriminate | destruct Hin].
    + destruct st; cbn in Hin; [destruct Hin as [Hin|[]]; discriminate | destruct Hin].
    + destruct Hin as [Hin|[]]. inversion Hin; subst. cbn in Hlt. lia.
    + apply in_map_iff in Hin. destruct Hin as (x & Hx & _). discriminate.
    + destruct Hin as [Hin|[]]. inversion Hin; subst. cbn in Hlt. lia.
  - split.
    + do 5 (apply in_or_app; right). left. reflexivity.
    + do 3 (apply in_or_app; right). apply in_or_app. left. left. reflexivity.
Qed.

(** ** The processors that can fire *)

Lemma stopAudio_taps_incl s q : In q (taps (stopAudio s)) -> In q (taps s).
Proof.
  rewrite LiveAgentFacts.stopAudio_eq. cbn [taps]. unfold remaining_taps.
  destruct (processorRef s), (inputContextRef s); intros Hq;
    repeat (apply filter_In in Hq; destruct Hq as [Hq _]); exact Hq.
Qed.

Lemma handles_taps s s' : handles s' = handles s -> taps s' = taps s.
Proof. unfold handles. intros H. inversion H. reflexivity. Qed.

Lemma step_taps e s s' : step e s = Some s' -> taps_step s s'.
Proof.
  intros Hstep.
  destruct (step_sources e s s' Hstep) as (_ & Hcr & _).
  unfold taps_step. split; [exact Hcr|]. clear Hcr.
  destruct e; cbn in Hstep.
  - inversion Hstep; subst. left. open_state s. cbn. auto.
  - destruct (acquiring s); [discriminate|]. inversion Hstep; subst.
    left. unfold startSession_granted, startSession_catch.
    open_state s. cbn. destruct ac; cbn; [auto|].
    intros q Hq. apply stopAudio_taps_incl in Hq. exact Hq.
  - destruct (acquiring s); [discriminate|]. inversion Hstep; subst.
    left. unfold startSession_denied, startSession_catch.
    intros q Hq. apply stopAudio_taps_incl in Hq.
    open_state s. exact Hq.
  - unfold settle in Hstep.
    destruct (nth_error (connections s) k) as [c|]; [|discriminate].
    destruct (sessionPromise c); try discriminate.
    inversion Hstep; subst. left. destruct ok; open_state s; cbn; auto.
  - destruct (nth_error (connections s) k) as [c|]; [|discriminate].
    inversion Hstep; subst. unfold onopen. open_state s. cbn.
    destruct ic as [c'|]; cbn; [|left; auto].
    right. exists c'. repeat split; reflexivity.
  - destruct (existsb (same_tap p) (taps s)); [|discriminate].
    inversion Hstep; subst. left. unfold onaudioprocess.
    rewrite (handles_taps _ _ (then_send_handles _ _)).
    open_state s. cbn. auto.
  - inversion Hstep; subst. left.
    rewrite (handles_taps _ _ (onmessage_enter_handles _ _ _)). auto.
  - destruct (nth_error (decoding s) i) as [k|]; [|discriminate].
    inversion Hstep; subst. left.
    rewrite (handles_taps _ _ (onmessage_resume_handles _ _)).
    open_state s. cbn. auto.
  - inversion Hstep; subst. left. open_state s. cbn. auto.
  - inversion Hstep; subst. left. unfold onclose.
    intros q Hq. apply stopAudio_taps_incl in Hq. open_state s. exact Hq.
  - inversion Hstep; subst. left. unfold onerror.
    intros q Hq. apply stopAudio_taps_incl in Hq. open_state s. exact Hq.
  - inversion Hstep; subst. left. apply stopAudio_taps_incl.
Qed.

Lemma step_fresh_taps e s s' :
  step e s = Some s' -> fresh_taps s -> fresh_taps s'.
Proof.
  intros Hstep Hf. unfold fresh_taps in *.
  destruct (step_taps e s s' Hstep) as (Hcr & [Hincl | (c & _ & Ht & Hc)]).
  - apply Forall_forall. intros q Hq. apply Hincl in Hq.
    rewrite Forall_forall in Hf. specialize (Hf q Hq). lia.
  - rewrite Ht. apply Forall_app. split.
    + eapply Forall_impl; [|exact Hf]. cbn. intros q Hq. lia.
    + constructor; [cbn; lia | constructor].
Qed.

Lemma run_fresh_taps es : forall s s',
  run es s = Some s' -> fresh_taps s -> fresh_taps s'.
Proof.
  induction es as [|e es IH]; intros s s' Hrun Hf.
  - inversion Hrun; subst. exact Hf.
  - cbn [run] in Hrun. destruct (step e s) as [s1|] eqn:E; [|discriminate].
    apply (IH s1 s' Hrun). apply (step_fresh_taps e s s1 E Hf).
Qed.

Lemma initial_fresh_taps : fresh_taps initial.
Proof. constructor. Qed.

Lemma fresh_no_tap s c n b :
  fresh_taps s -> (created s <= n)%nat ->
  existsb (same_tap (ScriptProcessor c n b)) (taps s) = false.
Proof.
  unfold fresh_taps. intros Hf Hn.
  induction (taps s) as [|q l IH]; [reflexivity|].
  inversion Hf as [|? ? Hq Hl]; subst. cbn [existsb].
  rewrite (IH Hl), orb_false_r.
  destruct q as [cq iq bq]. cbn in Hq |- *. apply Nat.eqb_neq. lia.
Qed.

(** X13.  [onopen] overwrites [processorRef] without disconnecting the
    processor it holds: when the channel's [onopen] runs twice in a
    reachable state that holds an input context, both processors fire, and
    the teardown makes a disconnect call for the second only; the first
    falls silent with it because both are nodes of the input context that
    the teardown closes. *)
Theorem X13_second_open_overwrites_processor :
  forall es s j k s2 c inputData,
    run es initial = Some s ->
    inputContextRef s = Some c ->
    run [Open j; Open k] s = Some s2 ->
    processorRef s2 = Some (ScriptProcessor c (S (created s)) 4096) /\
    step (AudioProcess (ScriptProcessor c (created s) 4096) inputData) s2
      = Some (onaudioprocess inputData s2) /\
    step (AudioProcess (ScriptProcessor c (S (created s)) 4096) inputData) s2
      = Some (onaudioprocess inputData s2) /\
    In (ProcessorDisconnect (ScriptProcessor c (S (created s)) 4096))
       (teardown_effects s2) /\
    ~ In (ProcessorDisconnect (ScriptProcessor c (created s) 4096))
         (teardown_effects s2) /\
    step (AudioProcess (ScriptProcessor c (created s) 4096) inputData)
         (stopAudio s2) = None /\
    step (AudioProcess (ScriptProcessor c (S (created s)) 4096) inputData)
         (stopAudio s2) = None.
Proof.
  intros es s j k s2 c inputData Hrun Hc Hopen.
  pose proof (run_fresh_taps es initial s Hrun initial_fresh_taps) as Hfresh.
  cbn [run step] in Hopen.
  destruct (nth_error (connections s) j) as [c1|] eqn:Ej; [|discriminate].
  assert (Hcs : connections (onopen (micStream c1) s) = connections s).
  { unfold onopen. open_state s. cbn. destruct ic; reflexivity. }
  rewrite Hcs in Hopen.
  destruct (nth_error (connections s) k) as [c2|] eqn:Ek; [|discriminate].
  inversion Hopen as [Hs2]. clear Hopen.
  assert (Hp : processorRef (onopen (micStream c2) (onopen (micStream c1) s))
               = Some (ScriptProcessor c (S (created s)) 4096)).
  { unfold onopen. open_state s. cbn in Hc. subst ic. reflexivity. }
  assert (Ht : taps (onopen (micStream c2) (onopen (micStream c1) s))
               = (taps s ++ [ScriptProcessor c (created s) 4096])
                   ++ [ScriptProcessor c (S (created s)) 4096]).
  { unfold onopen. open_state s. cbn in Hc. subst ic. reflexivity. }
  assert (Hi : inputContextRef (onopen (micStream c2) (onopen (micStream c1) s))
               = Some c).
  { unfold onopen. open_state s. cbn in Hc. subst ic. reflexivity. }
  assert (Hso : sourceRef (onopen (micStream c2) (onopen (micStream c1) s))
                = Some (MediaStreamSource (micStream c2))).
  { unfold onopen. open_state s. cbn in Hc. subst ic. reflexivity. }
  set (s2' := onopen (micStream c2) (onopen (micStream c1) s)) in *.
  assert (Hold : existsb (same_tap (ScriptProcessor c (created s) 4096)) (taps s)
                 = false).
  { apply fresh_no_tap; [exact Hfresh | lia]. }
  assert (Hold' : existsb (same_tap (ScriptProcessor c (S (created s)) 4096))
                    (taps s) = false).
  { apply fresh_no_tap; [exact Hfresh | lia]. }
  split; [exact Hp|].
  split.
  { cbn [step]. rewrite Ht, !existsb_app. cbn [existsb same_tap].
    rewrite Nat.eqb_refl, !orb_true_r. reflexivity. }
  split.
  { cbn [step]. rewrite Ht, !existsb_app. cbn [existsb same_tap].
    rewrite Nat.eqb_refl, !orb_true_r. reflexivity. }
  split.
  { unfold teardown_effects. rewrite Hp. left. reflexivity. }
  split.
  { unfold teardown_effects. rewrite Hp, Hso, Hi. cbn [effect_if app].
    intros [H|[H|H]]; try discriminate.
    - inversion H. lia.
    - destruct (streamRef s2'); cbn [effect_if app] in H.
      + destruct H as [H|[H|H]]; try discriminate.
        apply in_app_or in H. destruct H as [H|H].
        * apply in_map_iff in H. destruct H as (x & Hx & _). discriminate.
        * destruct (audioContextRef s2'); cbn in H; [destruct H as [H|[]]|];
            try discriminate; exact H.
      + destruct H as [H|H]; try discriminate.
        apply in_app_or in H. destruct H as [H|H].
        * apply in_map_iff in H. destruct H as (x & Hx & _). discriminate.
        * destruct (audioContextRef s2'); cbn in H; [destruct H as [H|[]]|];
            try discriminate; exact H. }
  assert (Hrem : forall p, on_context c p = true ->
                   existsb (same_tap p) (taps s) = false ->
                   existsb (same_tap p) (taps (stopAudio s2')) = false).
  { intros p Hon Hno. rewrite LiveAgentFacts.stopAudio_eq. cbn [taps].
    unfold remaining_taps. rewrite Hp, Hi, Ht.
    rewrite !filter_app, !existsb_app.
    rewrite LiveAgentFacts.existsb_filter_out
      by (apply LiveAgentFacts.existsb_filter_out; exact Hno).
    cbn [filter same_tap negb].
    rewrite Nat.eqb_refl.
    replace (Nat.eqb (S (created s)) (created s)) with false
      by (symmetry; apply Nat.eqb_neq; lia).
    cbn [negb filter on_context]. rewrite Nat.eqb_refl. reflexivity. }
  split.
  - cbn [step]. rewrite Hrem; [reflexivity | cbn; apply Nat.eqb_refl | exact Hold].
  - cbn [step]. rewrite Hrem; [reflexivity | cbn; apply Nat.eqb_refl | exact Hold'].
Qed.

(** ** One start: the output context of the session *)










End WithUtils.



Lemma X1_handles_are_consistent_witness :
  connected Scenario.live = true /\
  In Scenario.tap (taps Scenario.live) /\
  (processorRef Scenario.live <> None -> inputContextRef Scenario.live <> None).
Proof.
  destruct (@X1_handles_are_consistent Scenario.sampleUtils Scenario.opened
              Scenario.live LiveAgentFacts.opened_live)
    as (H1 & _ & _ & _ & H5).
  destruct (H1 Scenario.tap eq_refl) as [Ha Hb].
  split; [exact Ha|]. split; [exact Hb | exact H5].
Defined.

Lemma X2_error_shown_means_torn_down_witness :
  audioContextRef (onerror Scenario.live) = None /\
  inputContextRef (onerror Scenario.live) = None /\
  streamRef (onerror Scenario.live) = None /\
  processorRef (onerror Scenario.live) = None /\
  sourceRef (onerror Scenario.live) = None.
Proof.
  apply (@X2_error_shown_means_torn_down Scenario.sampleUtils
           (Scenario.opened ++ [ChannelError])).
  - rewrite LiveAgentFacts.run_app, LiveAgentFacts.opened_live. reflexivity.
  - vm_compute. discriminate.
Defined.

Lemma X3_active_sources_have_been_started_witness :
  exists s,
    @run Scenario.sampleUtils
      (Scenario.opened ++ [Message Scenario.chunk 1; DecodeSettled 0])
      initial = Some s /\
    NoDup (map nodeId (activeSourcesRef s)) /\
    (forall src, In src (activeSourcesRef s) ->
        exists w, In (SourceStart src w) (trace s)).
Proof.
  assert (exists s, @run Scenario.sampleUtils
      (Scenario.opened ++ [Message Scenario.chunk 1; DecodeSettled 0])
      initial = Some s) as [s E] by (eexists; vm_compute; reflexivity).
  exists s. split; [exact E|].
  destruct (@X3_active_sources_have_been_started Scenario.sampleUtils _ s E)
    as [H1 H2].
  split; [exact H2|]. intros src Hsrc. apply (H1 src Hsrc).
Defined.

Lemma X4_ended_undoes_schedule_witness :
  exists s',
    @step Scenario.sampleUtils (Ended Scenario.chunkSource)
      (schedule {| frames := 1; rate := 24000 |} Scenario.live) = Some s' /\
    activeSourcesRef s' = [].
Proof.
  destruct (@X4_ended_undoes_schedule Scenario.sampleUtils Scenario.opened
              Scenario.live {| frames := 1; rate := 24000 |}
              LiveAgentFacts.opened_live) as (s' & H1 & H2 & _).
  exists s'. split; [exact H1 | exact H2].
Defined.

Lemma X5_payloads_sent_once_in_capture_order_witness :
  exists s',
    @run Scenario.sampleUtils
      [AudioProcess Scenario.tap [0; 0]; SessionSettled 0 true;
       AudioProcess Scenario.tap [0]]
      Scenario.live = Some s' /\
    sends (trace s') ++ retained s' = [Scenario.silence [0; 0]; Scenario.silence [0]].
Proof.
  assert (exists s', @run Scenario.sampleUtils
      [AudioProcess Scenario.tap [0; 0]; SessionSettled 0 true;
       AudioProcess Scenario.tap [0]]
      Scenario.live = Some s') as [s' E]
    by (eexists; lazy -[rms Rmax Rmult IZR Scenario.silence]; reflexivity).
  exists s'. split; [exact E|].
  apply (@X5_payloads_sent_once_in_capture_order Scenario.sampleUtils _ _ _ E).
  - reflexivity.
  - split; [reflexivity|]. eexists. split; [reflexivity | discriminate].
Defined.

Lemma X6_only_interruption_rewinds_cursor_witness :
  (exists s',
      @run Scenario.sampleUtils
        (Scenario.opened ++ [Message Scenario.chunk 1; DecodeSettled 0])
        initial = Some s' /\
      nextStartTimeRef initial <= nextStartTimeRef s') /\
  (exists s1,
      @onmessage Scenario.sampleUtils Scenario.chunk 0
        (startSession_granted (Microphone 1)
           (startSession_begin (stopAudio Scenario.playing)))
      = Returned s1 /\
      In (SourceStart {| nodeId := 6; buffer := {| frames := 1; rate := 24000 |} |}
            (nextStartTimeRef Scenario.playing)) (trace s1)).
Proof.
  destruct (@X6_only_interruption_rewinds_cursor Scenario.sampleUtils)
    as (H1 & _ & H3).
  split.
  - assert (exists s', @run Scenario.sampleUtils
        (Scenario.opened ++ [Message Scenario.chunk 1; DecodeSettled 0])
        initial = Some s') as [s' E] by (eexists; vm_compute; reflexivity).
    exists s'. split; [exact E|].
    apply (H1 _ initial s' E); [reflexivity | constructor].
  - destruct (H3 Scenario.playing (Microphone 1) Scenario.chunk 0 "AAA="%string
                [Byte.x00; Byte.x00] {| frames := 1; rate := 24000 |})
      as (s1 & E1 & E2); try reflexivity.
    + pose proof (LiveAgentFacts.duration_nonneg {| frames := 3; rate := 24000 |}) as Hd.
      exact Hd.
    + exists s1. split; [exact E1 | exact E2].
Defined.

Lemma X7_parked_decode_outlives_teardown_witness :
  exists s',
    @onmessage_resume Scenario.sampleUtils
      {| sCtx := {| ctxId := 0; sampleRate := 24000 |};
         sBytes := [Byte.x00; Byte.x00];
         sMessage := Scenario.chunk |}
      (stopAudio Scenario.live) = Returned s' /\
    audioContextRef s' = None /\
    activeSourcesRef s' = [Scenario.chunkSource].
Proof.
  destruct (@X7_parked_decode_outlives_teardown Scenario.sampleUtils
              {| sCtx := {| ctxId := 0; sampleRate := 24000 |};
                 sBytes := [Byte.x00; Byte.x00];
                 sMessage := Scenario.chunk |}
              Scenario.live {| frames := 1; rate := 24000 |} eq_refl eq_refl)
    as (s' & H1 & H2 & H3 & _).
  exists s'. repeat split; assumption.
Defined.

Lemma X10_late_microphone_grant_is_released_witness :
  In (TrackStop (Microphone 0))
     (trace (startSession_granted (Microphone 0)
               (stopAudio (startSession_begin initial)))) /\
  streamRef (startSession_granted (Microphone 0)
               (stopAudio (startSession_begin initial))) = None.
Proof.
  destruct (X10_late_microphone_grant_is_released
              (stopAudio (startSession_begin initial)) (Microphone 0))
    as (_ & H2 & H3 & _).
  - apply (LiveAgentFacts.stopAudio_result (startSession_begin initial)).
  - split; assumption.
Defined.

Lemma X12_second_start_drops_open_context_witness :
  exists added,
    trace (stopAudio
             (startSession_begin
                (startSession_granted (Microphone 0) (startSession_begin initial))))
      = trace (startSession_granted (Microphone 0) (startSession_begin initial))
          ++ added /\
    ~ In (ContextClose {| ctxId := 0; sampleRate := 24000 |}) added.
Proof.
  destruct (X12_second_start_drops_open_context
              (startSession_granted (Microphone 0) (startSession_begin initial))
              {| ctxId := 0; sampleRate := 24000 |} eq_refl)
    as (_ & _ & _ & added & H1 & H2 & _).
  - cbn. lia.
  - exists added. split; assumption.
Defined.

Lemma X13_second_open_overwrites_processor_witness :
  exists s s2,
    @run Scenario.sampleUtils Scenario.startedTwice initial = Some s /\
    @run Scenario.sampleUtils [Open 0; Open 1] s = Some s2 /\
    processorRef s2
      = Some (ScriptProcessor {| ctxId := 3; sampleRate := 16000 |} 5 4096) /\
    @step Scenario.sampleUtils
      (AudioProcess (ScriptProcessor {| ctxId := 3; sampleRate := 16000 |} 4 4096)
         [0]) s2
      = Some (@onaudioprocess Scenario.sampleUtils [0] s2) /\
    ~ In (ProcessorDisconnect
            (ScriptProcessor {| ctxId := 3; sampleRate := 16000 |} 4 4096))
         (teardown_effects s2) /\
    @step Scenario.sampleUtils
      (AudioProcess (ScriptProcessor {| ctxId := 3; sampleRate := 16000 |} 4 4096)
         [0]) (stopAudio s2)
      = None.
Proof.
  eexists. eexists.
  split; [vm_compute; reflexivity|].
  split; [vm_compute; reflexivity|].
  match goal with |- processorRef ?s2 = _ /\ _ =>
    destruct (@X13_second_open_overwrites_processor Scenario.sampleUtils
                Scenario.startedTwice _ 0%nat 1%nat s2
                {| ctxId := 3; sampleRate := 16000 |} [0]
                ltac:(vm_compute; reflexivity) eq_refl
                ltac:(vm_compute; reflexivity))
      as (H1 & H2 & _ & _ & H5 & H6 & _)
  end.
  split; [exact H1|]. split; [exact H2|]. split; [exact H5 | exact H6].
Defined.

End ComponentFacts.

(** * Facts about the visualizer *)

Module VisualizerFacts.

Import LiveAgent Visualizer.
Local Open Scope R_scope.

Lemma render_inside volume connected ops :
  render (Some canvasElement) volume connected = Some ops ->
  0 <= volume <= 1 ->
  Forall (inside canvasElement) ops.
Proof.
  unfold render. cbn [has2d canvasElement width height]. intros H Hv.
  inversion H; subst. clear H.
  destruct connected; [destruct (Rlt_dec 0.01 volume)|]; cbn [app];
    repeat apply Forall_cons; try apply Forall_nil;
    unfold inside; cbn [canvasElement width height];
    repeat match goal with |- _ /\ _ => split end; lra.
Qed.

(** X14.  [render] draws nothing and does not ask for another frame when
    the canvas ref is null or gives no 2d context.  On the 300 by 300 canvas,
    with the energy sample in [0, 1], it draws the fading rectangle, the
    glow and the core, and every shape lies within the canvas; the ripple is
    drawn exactly when [connected] is set and the energy sample is above
    0.01, and then between the core and the glow. *)
Theorem X14_frame_fits_canvas :
  (forall volume connected, render None volume connected = None) /\
  (forall canvas volume connected,
      has2d canvas = false -> render (Some canvas) volume connected = None) /\
  (forall volume connected,
      0 <= volume <= 1 ->
      exists ops,
        render (Some canvasElement) volume connected = Some ops /\
        Forall (inside canvasElement) ops /\
        (existsb is_stroke ops = true <-> connected = true /\ 0.01 < volume) /\
        (forall p lw x y r,
            In (StrokeCircle p lw x y r) ops ->
            40 + volume * 20 < r < 50 + volume * 100)).
Proof.
  split; [reflexivity|].
  split; [intros canvas volume connected H; unfold render; rewrite H; reflexivity|].
  intros volume connected Hv. eexists. split; [reflexivity|].
  split; [apply (render_inside volume connected); [reflexivity | exact Hv]|].
  split.
  - unfold render. cbn [has2d canvasElement].
    destruct connected; [destruct (Rlt_dec 0.01 volume)|];
      cbn [app existsb is_stroke orb]; split; intros H;
      try discriminate; try reflexivity;
      try (split; [reflexivity | assumption]);
      try (destruct H as [H1 H2]; try discriminate; contradiction).
  - intros p lw x y r Hin. unfold render in Hin. cbn [has2d canvasElement] in Hin.
    destruct connected; [destruct (Rlt_dec 0.01 volume)|]; cbn [app In] in Hin;
      repeat (destruct Hin as [Hin|Hin]; try discriminate); try contradiction.
    inversion Hin; subst. lra.
Qed.

(** X15.  In every state the event loop reaches from the mounted component
    with every captured block non-empty and within [-1, 1], the frame
    [render] draws from [volume] and [connected] lies within the
    canvas. *)
Theorem X15_reachable_frames_fit_canvas :
  forall (utils : AudioUtils) es s,
    run es initial = Some s ->
    (forall e inputData,
        In e es -> block_of e = Some inputData -> normalized inputData) ->
    exists ops,
      render (Some canvasElement) (volume s) (connected s) = Some ops /\
      Forall (inside canvasElement) ops.
Proof.
  intros utils es s Hrun Hb.
  assert (Hv : 0 <= volume s <= 1).
  { apply (LiveAgentFacts.run_volume es initial s Hrun Hb). cbn. lra. }
  eexists. split; [reflexivity|].
  apply (render_inside (volume s) (connected s)); [reflexivity | exact Hv].
Qed.

Lemma X14_frame_fits_canvas_witness :
  render (Some {| width := 300; height := 300; has2d := false |}) 0.5 true = None /\
  exists ops,
    render (Some canvasElement) 0.5 true = Some ops /\
    Forall (inside canvasElement) ops /\
    existsb is_stroke ops = true.
Proof.
  destruct X14_frame_fits_canvas as (_ & H2 & H3).
  split; [apply H2; reflexivity|].
  destruct (H3 0.5 true) as (ops & E & Hin & Hiff & _); [lra|].
  exists ops. split; [exact E|]. split; [exact Hin|].
  apply Hiff. split; [reflexivity | lra].
Defined.

Lemma X15_reachable_frames_fit_canvas_witness :
  exists ops,
    render (Some canvasElement)
      (volume (@onaudioprocess Scenario.sampleUtils [1; -0.5] Scenario.live))
      (connected (@onaudioprocess Scenario.sampleUtils [1; -0.5] Scenario.live))
    = Some ops /\
    Forall (inside canvasElement) ops.
Proof.
  apply (X15_reachable_frames_fit_canvas Scenario.sampleUtils
           (Scenario.opened ++ [AudioProcess Scenario.tap [1; -0.5]])).
  - rewrite LiveAgentFacts.run_app, LiveAgentFacts.opened_live. reflexivity.
  - intros e b Hin Hb. cbn [Scenario.opened app In] in Hin.
    destruct Hin as [<-|[<-|[<-|[<-|[]]]]]; try discriminate.
    inversion Hb; subst.
    split; [discriminate | repeat apply Forall_cons; try apply Forall_nil; lra].
Defined.

End VisualizerFacts.

(** * Facts about the application shell *)

Module AppFacts.

Import LiveAgent App.

Section WithUtils.

Context {utils : AudioUtils}.

Lemma setMode_shown b app : shown app -> shown (setMode (target b) app).
Proof.
  intros [Hm Hl]. unfold setMode, shown.
  destruct (liveAgent app) as [s|], b; cbn; repeat split; intros;
    try discriminate; try reflexivity; try congruence.
Qed.

Lemma appStep_shown e app app' :
  appStep e app = Some app' -> shown app -> shown app'.
Proof.
  intros Hstep Hs. destruct e as [b|e]; cbn in Hstep.
  - inversion Hstep; subst. apply setMode_shown. exact Hs.
  - destruct (liveAgent app) as [s|] eqn:Hl; [|discriminate].
    destruct (step e s); [|discriminate]. inversion Hstep; subst.
    destruct Hs as [Hm Hiff]. unfold shown. cbn. split; [exact Hm|].
    split; intros _; [apply Hiff; congruence | congruence].
Qed.

Lemma appRun_shown es : forall app app',
  appRun es app = Some app' -> shown app -> shown app'.
Proof.
  induction es as [|e es IH]; intros app app' Hrun Hs.
  - inversion Hrun; subst. exact Hs.
  - cbn [appRun] in Hrun.
    destruct (appStep e app) as [app1|] eqn:Hstep; [|discriminate].
    exact (IH app1 app' Hrun (appStep_shown e app app1 Hstep Hs)).
Qed.

(** X16.  Whatever is clicked and whatever the voice component does, the
    shell never gets to [HOME], the one mode without a view: the main area
    shows exactly one component, exactly one navigation button is active,
    and the voice component is mounted exactly in [LIVE]. *)
Theorem X16_one_view_is_shown :
  forall es app,
    appRun es started = Some app ->
    mode app <> HOME /\
    List.length (main (mode app)) = 1%nat /\
    List.length (filter (fun b => active b (mode app)) [Voice; Chat; Studio])
      = 1%nat /\
    (liveAgent app <> None <-> mode app = LIVE).
Proof.
  intros es app Hrun.
  assert (Hs : shown started).
  { unfold shown. cbn. split; [discriminate|]. split; intros; [reflexivity | discriminate]. }
  destruct (appRun_shown es started app Hrun Hs) as [Hm Hl].
  split; [exact Hm|].
  destruct (mode app) eqn:E; [congruence| | |]; repeat split; cbn;
    try reflexivity; try apply Hl; try (intros H; apply Hl in H; congruence).
Qed.

(** X17.  Leaving the voice view unmounts the component and its cleanup
    runs the teardown: the microphone stream it holds is stopped, every
    active source is stopped and both contexts are closed.  Clicking the
    voice button while the voice view is shown keeps the instance. *)
Theorem X17_leaving_voice_view_releases_devices :
  forall app s b,
    liveAgent app = Some s ->
    (target b <> LIVE ->
       liveAgent (setMode (target b) app) = None /\
       released (setMode (target b) app)
         = released app ++ trace s ++ teardown_effects s /\
       (forall m, streamRef s = Some m ->
          In (TrackStop m) (released (setMode (target b) app))) /\
       (forall src, In src (activeSourcesRef s) ->
          In (SourceStop src) (released (setMode (target b) app))) /\
       (forall c, audioContextRef s = Some c \/ inputContextRef s = Some c ->
          In (ContextClose c) (released (setMode (target b) app)))) /\
    (target b = LIVE ->
       liveAgent (setMode (target b) app) = Some s /\
       released (setMode (target b) app) = released app).
Proof.
  intros app s b Hl. unfold setMode. rewrite Hl. split.
  - intros Hb.
    assert (Hm : mode_eqb (target b) LIVE = false)
      by (destruct b; [exfalso; apply Hb; reflexivity | reflexivity | reflexivity]).
    rewrite Hm. cbn [liveAgent released].
    destruct (LiveAgentFacts.stopAudio_result s) as (_ & _ & _ & _ & _ & _ & _ & _ & Ht).
    rewrite Ht. split; [reflexivity|]. split; [reflexivity|].
    assert (Hin : forall e, In e (teardown_effects s) ->
                    In e (released app ++ trace s ++ teardown_effects s))
      by (intros e He; do 2 (apply in_or_app; right); exact He).
    split; [|split].
    + intros m Hs. apply Hin. unfold teardown_effects. rewrite Hs.
      do 2 (apply in_or_app; right). apply in_or_app. left. left. reflexivity.
    + intros src Hsrc. apply Hin. unfold teardown_effects.
      do 4 (apply in_or_app; right). apply in_or_app. left.
      apply in_map. exact Hsrc.
    + intros c [Hc|Hc]; apply Hin; unfold teardown_effects; rewrite Hc.
      * do 5 (apply in_or_app; right). left. reflexivity.
      * do 3 (apply in_or_app; right). apply in_or_app. left. left. reflexivity.
  - intros Hb. rewrite Hb. cbn. split; reflexivity.
Qed.

End WithUtils.

Lemma X16_one_view_is_shown_witness :
  exists app,
    @appRun Scenario.sampleUtils
      [Click Chat; Click Voice; Live StartClicked; Click Studio] started
      = Some app /\
    mode app <> HOME /\
    List.length (main (mode app)) = 1%nat.
Proof.
  assert (exists app, @appRun Scenario.sampleUtils
      [Click Chat; Click Voice; Live StartClicked; Click Studio] started
      = Some app) as [app E] by (eexists; vm_compute; reflexivity).
  exists app. split; [exact E|].
  destruct (@X16_one_view_is_shown Scenario.sampleUtils _ app E)
    as (H1 & H2 & _).
  split; assumption.
Defined.

Lemma X17_leaving_voice_view_releases_devices_witness :
  In (TrackStop (Microphone 0))
     (released
        (setMode (target Chat)
           {| mode := LIVE; liveAgent := Some Scenario.playing; released := [] |})) /\
  liveAgent
    (setMode (target Voice)
       {| mode := LIVE; liveAgent := Some Scenario.playing; released := [] |})
  = Some Scenario.playing.
Proof.
  split.
  - destruct (X17_leaving_voice_view_releases_devices
                {| mode := LIVE; liveAgent := Some Scenario.playing; released := [] |}
                Scenario.playing Chat eq_refl) as [H _].
    destruct H as (_ & _ & Hm & _); [discriminate|].
    apply (Hm (Microphone 0)). reflexivity.
  - destruct (X17_leaving_voice_view_releases_devices
                {| mode := LIVE; liveAgent := Some Scenario.playing; released := [] |}
                Scenario.playing Voice eq_refl) as [_ H].
    destruct (H eq_refl) as [H1 _]. exact H1.
Defined.

End AppFacts.
